(** * card-detector: a shallow embedding of [cards.py]

    The development has the Python and NumPy operations the functions rely
    on, the OpenCV calls, the constants, [flattener] (which [process_card]
    calls), the two record classes, [get_card_contours], [process_card],
    [get_card_rank] and [load_ranks], and then the properties proved about
    them.

    Conventions.
    - Pixel coordinates are integers.  [corner_pts] is [np.float32(approx)]
      of an [int32] polygon, so every float the geometry code sees is an
      integer value that [float32] represents exactly; it is modelled in [Z].
      This is exact for coordinates below 2^24, which pixel positions are.
    - Python floats that are not integers (contour areas, [0.8*h],
      [POLY_ACC_CONST*peri]) are modelled by exact rationals [Q].  Areas of
      integer curves are exact in binary64; for the products [0.8*h] and
      [1.2*h], [tests_binary64_exact] compares the rounded tests with the
      exact ones on boxes up to 256 by 128.  The exact tests stand for the
      rounded ones only for sizes that binary64 holds exactly (below 2^53),
      which the sizes [cv2.boundingRect] returns are.
    - A NumPy array of shape (N,1,2) is a [list point]: the middle axis of
      length one is elided, [pts[i][0]] is the i-th element.
    - An image is a list of rows, each row a list of pixels.
    - [cv2.imshow], [cv2.waitKey] and [cv2.destroyAllWindows] only display;
      they do not change any value and are left out. *)

From Stdlib Require Import ZArith QArith Qabs String Sorted Floats.
From stdpp Require Import base list sorting gmap strings.

Local Open Scope Z_scope.

(** ** Python runtime *)

Module Py.

Inductive exn : Type :=
| NameError (name : string)
| TypeError
| IndexError
| ValueError
| CvError.

Inductive result (A : Type) : Type :=
| Ok (a : A)
| Raise (e : exn).
Arguments Ok {A} a.
Arguments Raise {A} e.

Definition bind {A B} (m : result A) (k : A -> result B) : result B :=
  match m with
  | Ok a => k a
  | Raise e => Raise e
  end.

(** [l[i]] for a non-negative index. *)
Definition index {A} (l : list A) (i : nat) : result A :=
  match l !! i with
  | Some a => Ok a
  | None => Raise IndexError
  end.

(** Bound of a slice [l[a:b]] on a sequence of length [n]: a negative bound
    counts from the end, and every bound is clipped to [0..n]. *)
Definition clip (n : nat) (a : Z) : nat :=
  if a <? 0 then Z.to_nat (Z.max (a + Z.of_nat n) 0)
  else Nat.min (Z.to_nat a) n.

Definition slice {A} (l : list A) (a b : Z) : list A :=
  let lo := clip (length l) a in
  let hi := clip (length l) b in
  take (hi - lo) (drop lo l).

(** [a[r0:r1, c0:c1]] on a two-dimensional array. *)
Definition slice2 {A} (a : list (list A)) (r0 r1 c0 c1 : Z) : list (list A) :=
  (fun row : list A => slice row c0 c1) <$> slice a r0 r1.

(** [os.path.join(a, b)] on POSIX for a relative [b]. *)
Definition ends_with_sep (a : string) : bool :=
  match String.length a with
  | O => false
  | S n => String.eqb (String.substring n 1 a) "/"
  end.

Definition path_join (a b : string) : string :=
  if String.eqb a "" then b
  else if ends_with_sep a then (a ++ b)%string
  else (a ++ "/" ++ b)%string.

(** *** [sorted(l, key=..., reverse=True)]

    CPython reverses the list, sorts it stably in ascending key order and
    reverses the outcome, so elements with equal keys keep their input
    order.  The stable ascending sort is written as an insertion sort;
    keys are floats, compared with [<]. *)
Section Sorted.
Context {A : Type} (key : A -> Q).

Definition key_lt (a b : A) : bool := negb (Qle_bool (key b) (key a)).

Fixpoint insert_stable (x : A) (l : list A) : list A :=
  match l with
  | [] => [x]
  | y :: l' => if key_lt y x then y :: insert_stable x l'
               else x :: y :: l'
  end.

Fixpoint sort_stable (l : list A) : list A :=
  match l with
  | [] => []
  | x :: l' => insert_stable x (sort_stable l')
  end.

Definition sorted_reverse (l : list A) : list A :=
  rev (sort_stable (rev l)).
End Sorted.

End Py.

Import Py.

#[global] Instance result_ret : MRet result := @Ok.
#[global] Instance result_bind : MBind result := fun _ _ k m => Py.bind m k.

(** ** NumPy reductions used by [flattener] and [process_card] *)

Module Np.

(** [np.argmin] and [np.argmax] return the first position of the extremum
    and raise on an empty array. *)
Fixpoint arg_from (better : Z -> Z -> bool) (best_i : nat) (best : Z)
         (i : nat) (l : list Z) : nat :=
  match l with
  | [] => best_i
  | v :: l' => if better v best then arg_from better i v (S i) l'
               else arg_from better best_i best (S i) l'
  end.

Definition argmin (l : list Z) : result nat :=
  match l with
  | [] => Raise ValueError
  | v :: l' => Ok (arg_from Z.ltb 0%nat v 1%nat l')
  end.

Definition argmax (l : list Z) : result nat :=
  match l with
  | [] => Raise ValueError
  | v :: l' => Ok (arg_from Z.gtb 0%nat v 1%nat l')
  end.

End Np.

(** ** Geometry *)

Definition point : Type := Z * Z.
Abbreviation contour := (list point).

Definition px (p : point) : Z := fst p.
Definition py (p : point) : Z := snd p.

(** [np.sum(pts, axis=2)]: x + y of every point. *)
Definition np_sum_axis2 (pts : list point) : list Z :=
  (fun p => px p + py p) <$> pts.

(** [np.diff(pts, axis=-1)]: the successive difference along the last axis,
    y - x of every point. *)
Definition np_diff_last (pts : list point) : list Z :=
  (fun p => py p - px p) <$> pts.

(** ** Images and the OpenCV operations *)

Definition bgr : Type := Z * Z * Z.
Abbreviation color_image := (list (list bgr)).
Abbreviation gray_image := (list (list Z)).

(** Number of pixels, [Mat::total()]. *)
Definition total {A} (a : list (list A)) : nat := length (concat a).

(** An array of [rows] rows with [cols] entries each. *)
Definition shape {A} (a : list (list A)) (rows cols : nat) : Prop :=
  length a = rows /\ Forall (fun r => length r = cols) a.

(** One row of the hierarchy array: [next, previous, first child, parent]. *)
Record hier_row : Type := HierRow {
  h_next : Z;
  h_prev : Z;
  h_child : Z;
  h_parent : Z
}.

(** What the pixel-level OpenCV routines compute is not needed by any
    property below, only how they are called and what shape they return.
    They are the fields of an interface; every definition and theorem after
    it holds for all implementations. *)
Class OpenCV : Type := {
  (** intensity of one pixel, [cv2.COLOR_BGR2GRAY] *)
  gray_of_bgr : bgr -> Z;
  (** [cv2.GaussianBlur(gray, (5,5), 0)] *)
  GaussianBlur : gray_image -> gray_image;
  (** the level that [cv2.THRESH_OTSU] selects *)
  otsu_level : gray_image -> Z;
  (** [cv2.findContours(thresh, RETR_TREE, CHAIN_APPROX_SIMPLE)], of which
      the code takes the last two of the three values OpenCV 3 returns: the
      curves and the hierarchy, which is [None] when there is no curve and
      otherwise holds the rows [hier[0]] *)
  findContours : gray_image -> list contour * option (list hier_row);
  (** [cv2.arcLength(c, True)] *)
  arcLength : contour -> Q;
  (** [cv2.approxPolyDP(c, accuracy, True)] *)
  approxPolyDP : contour -> Q -> list point;
  (** 3x3 homographies *)
  Mat3 : Type;
  getPerspectiveTransform : list point -> list point -> Mat3;
  (** the pixel that [cv2.warpPerspective] writes at column x, row y *)
  warp_pixel : color_image -> Mat3 -> nat -> nat -> bgr;
  (** the pixel that [cv2.resize] writes at column x, row y of a
      destination of the given width and height *)
  resize_pixel : gray_image -> nat -> nat -> nat -> nat -> Z
}.

(** [cv2.contourArea]: Green's formula over the closed polygon, halved,
    absolute value; 0 for an empty curve. *)
Fixpoint shoelace (prev : point) (c : contour) : Z :=
  match c with
  | [] => 0
  | p :: c' => (px prev * py p - py prev * px p) + shoelace p c'
  end.

Definition contourArea (c : contour) : Q :=
  match last c with
  | None => 0%Q
  | Some prev => Qabs (inject_Z (shoelace prev c) * 0.5)
  end.

(** [cv2.boundingRect] of an integer curve: [(x, y, w, h)] with inclusive
    extents.  The empty Python list converts to an array of doubles, which
    the routine refuses.  (An empty array of integer points, which neither
    [card()] nor [cv2.findContours] produces, would give [(0, 0, 0, 0)]
    instead.) *)
Definition boundingRect (c : contour) : result (Z * Z * Z * Z) :=
  match c with
  | [] => Raise CvError
  | p :: c' =>
      let xmin := foldl Z.min (px p) (px <$> c') in
      let xmax := foldl Z.max (px p) (px <$> c') in
      let ymin := foldl Z.min (py p) (py <$> c') in
      let ymax := foldl Z.max (py p) (py <$> c') in
      Ok (xmin, ymin, xmax - xmin + 1, ymax - ymin + 1)
  end.

(** [cv2.threshold(src, level, 255, cv2.THRESH_BINARY)] *)
Definition threshold_binary (src : gray_image) (level : Z) : gray_image :=
  (fun row : list Z => (fun v => if v >? level then 255 else 0) <$> row) <$> src.

Section OpenCVCalls.
Context `{cv : OpenCV}.

(** [cv2.threshold(src, 0, 255, cv2.THRESH_BINARY + cv2.THRESH_OTSU)]: the
    level given is ignored and Otsu's is used. *)
Definition threshold_otsu (src : gray_image) : gray_image :=
  threshold_binary src (otsu_level src).

(** [cv2.cvtColor(image, cv2.COLOR_BGR2GRAY)] refuses an empty source. *)
Definition cvtColor_BGR2GRAY (image : color_image) : result gray_image :=
  if Nat.eqb (total image) 0 then Raise CvError
  else Ok ((fun row : list bgr => gray_of_bgr <$> row) <$> image).

(** [cv2.warpPerspective(image, M, (width, height))] refuses an empty
    source and otherwise fills a destination of [height] rows and [width]
    columns. *)
Definition warpPerspective (image : color_image) (M : Mat3) (dsize : Z * Z)
  : result color_image :=
  if Nat.eqb (total image) 0 then Raise CvError
  else Ok ((fun y : nat => (fun x : nat => warp_pixel image M x y)
                       <$> seq 0 (Z.to_nat (fst dsize)))
             <$> seq 0 (Z.to_nat (snd dsize))).

(** [cv2.resize(src, (width, height), 0, 0)] refuses an empty source. *)
Definition resize (src : gray_image) (dsize : Z * Z) : result gray_image :=
  if Nat.eqb (total src) 0 then Raise CvError
  else
    let w := Z.to_nat (fst dsize) in
    let h := Z.to_nat (snd dsize) in
    Ok ((fun y : nat => (fun x : nat => resize_pixel src w h x y) <$> seq 0 w)
          <$> seq 0 h).
End OpenCVCalls.

(** ** Constants *)

Definition CARD_MAX_AREA : Z := 6000.
Definition CARD_MIN_AREA : Z := 3500.
Definition CORNER_HEIGHT : Z := 70.
Definition CORNER_WIDTH : Z := 45.
Definition RANK_HEIGHT : Z := 125.
Definition RANK_WIDTH : Z := 70.
Definition POLY_ACC_CONST : Q := 0.01.
Definition CARD_THRESH : Z := 200.
Definition RANK_THRESH : Z := 30.

(** Comparison of a Python number with a float. *)
Definition Qltb (a b : Q) : bool := negb (Qle_bool b a).

(** ** [flattener] *)

Section Flattener.
Context `{cv : OpenCV}.

(** [temp_rect[0], ..., temp_rect[3] = a, b, c, d] *)
Definition assign4 (a b c d : point) (temp_rect : list point) : list point :=
  <[3%nat := d]> (<[2%nat := c]> (<[1%nat := b]> (<[0%nat := a]> temp_rect))).

(** The diamond branch: the two tests on [pts[1][0][1]] and
    [pts[3][0][1]] follow one another. *)
Definition flattener_diamond (pts : list point) (temp_rect : list point)
  : result (list point) :=
  p1 ← index pts 1; p3 ← index pts 3;
  temp_rect ←
    (if py p1 <=? py p3 then
       a ← index pts 1; b ← index pts 0;
       c ← index pts 3; d ← index pts 2;
       Ok (assign4 a b c d temp_rect)
     else Ok temp_rect);
  p1 ← index pts 1; p3 ← index pts 3;
  if py p1 >? py p3 then
    a ← index pts 0; b ← index pts 3;
    c ← index pts 2; d ← index pts 1;
    Ok (assign4 a b c d temp_rect)
  else Ok temp_rect.

(** Lines 210-260: the source quadrilateral [temp_rect], ordered
    top left, top right, bottom right, bottom left. *)
Definition flattener_rect (pts : list point) (w h : Z) : result (list point) :=
  let temp_rect := replicate 4 (0, 0) in
  let s := np_sum_axis2 pts in
  i ← Np.argmin s; tl ← index pts i;
  i ← Np.argmax s; br ← index pts i;
  let diff := np_diff_last pts in
  i ← Np.argmin diff; tr ← index pts i;
  i ← Np.argmax diff; bl ← index pts i;
  let temp_rect :=
    if Qle_bool (inject_Z w) (0.8 * inject_Z h)
    then assign4 tl tr br bl temp_rect else temp_rect in
  let temp_rect :=
    if Qle_bool (1.2 * inject_Z h) (inject_Z w)
    then assign4 bl tl tr br temp_rect else temp_rect in
  if Qltb (0.8 * inject_Z h) (inject_Z w) && Qltb (inject_Z w) (1.2 * inject_Z h)
  then flattener_diamond pts temp_rect
  else Ok temp_rect.

Definition maxWidth : Z := 200.
Definition maxHeight : Z := 300.

Definition flattener (image : color_image) (pts : list point) (w h : Z)
  : result gray_image :=
  temp_rect ← flattener_rect pts w h;
  let dst := [(0, 0); (maxWidth - 1, 0);
              (maxWidth - 1, maxHeight - 1); (0, maxHeight - 1)] in
  let M := getPerspectiveTransform temp_rect dst in
  warp ← warpPerspective image M (maxWidth, maxHeight);
  cvtColor_BGR2GRAY warp.
End Flattener.

(** ** Structures *)

(** [class card].  [width] and [height] are attributes that [__init__] does
    not create: they are [None] until [process_card] assigns them. *)
Module card.
Record t : Type := mk {
  contour : list point;
  corner_pts : list point;
  center : list Z;
  img : list (list Z);
  rank_img : list (list Z);
  best_rank_match : string;
  rank_diff : Z;
  width : option Z;
  height : option Z
}.

(** [card()] *)
Definition init : t :=
  mk [] [] [] [] [] "Unknown" 0 None None.

Definition set_contour (v : list point) (c : t) : t :=
  mk v (corner_pts c) (center c) (img c) (rank_img c)
     (best_rank_match c) (rank_diff c) (width c) (height c).
Definition set_corner_pts (v : list point) (c : t) : t :=
  mk (contour c) v (center c) (img c) (rank_img c)
     (best_rank_match c) (rank_diff c) (width c) (height c).
Definition set_center (v : list Z) (c : t) : t :=
  mk (contour c) (corner_pts c) v (img c) (rank_img c)
     (best_rank_match c) (rank_diff c) (width c) (height c).
Definition set_img (v : list (list Z)) (c : t) : t :=
  mk (contour c) (corner_pts c) (center c) v (rank_img c)
     (best_rank_match c) (rank_diff c) (width c) (height c).
Definition set_rank_img (v : list (list Z)) (c : t) : t :=
  mk (contour c) (corner_pts c) (center c) (img c) v
     (best_rank_match c) (rank_diff c) (width c) (height c).
Definition set_width (v : Z) (c : t) : t :=
  mk (contour c) (corner_pts c) (center c) (img c) (rank_img c)
     (best_rank_match c) (rank_diff c) (Some v) (height c).
Definition set_height (v : Z) (c : t) : t :=
  mk (contour c) (corner_pts c) (center c) (img c) (rank_img c)
     (best_rank_match c) (rank_diff c) (width c) (Some v).
End card.

(** [class rank].  [img] is what [cv2.imread] gave: an image, or [None]. *)
Module rank.
Record t : Type := mk {
  rank : string;
  img : option (list (list Z))
}.

(** [rank()] *)
Definition init : t := mk "rank_name" (Some []).

Definition set_rank (v : string) (r : t) : t := mk v (img r).
Definition set_img (v : option (list (list Z))) (r : t) : t := mk (rank r) v.
End rank.

(** ** [get_card_contours] *)

Section GetCardContours.
Context `{cv : OpenCV}.

(** The key of line 82, [cv2.contourArea(cnts[i])]; [i] ranges over
    [range(len(cnts))], so the subscript is in range. *)
Definition area_key (cnts : list contour) (i : nat) : Q :=
  contourArea (nth i cnts []).

(** Lines 95-97.  [hier] is [None] when nothing was found, and a subscript
    on it raises. *)
Fixpoint fill_sorted (cnts : list contour) (hier : option (list hier_row))
         (index_sort : list nat) (cnts_sort : list contour)
         (hier_sort : list hier_row)
  : result (list contour * list hier_row) :=
  match index_sort with
  | [] => Ok (cnts_sort, hier_sort)
  | i :: rest =>
      c ← index cnts i;
      rows ← (match hier with
              | Some rows => Ok rows
              | None => Raise TypeError
              end);
      row ← index rows i;
      fill_sorted cnts hier rest (cnts_sort ++ [c]) (hier_sort ++ [row])
  end.

(** The test of lines 115-116. *)
Definition is_card (size : Q) (approx : list point) (row : hier_row) : bool :=
  Qltb size (inject_Z CARD_MAX_AREA)
  && Qltb (inject_Z CARD_MIN_AREA) size
  && (length approx =? 4)%nat
  && (h_parent row =? -1).

Definition new_card (c : contour) (approx : list point) : card.t :=
  card.set_corner_pts approx (card.set_contour c card.init).

(** Lines 100-122.  [card_info] is appended to in place, so what was
    collected before an exception is still there afterwards: the loop
    returns the list together with its outcome. *)
Fixpoint find_cards (cnts_sort : list contour) (hier_sort : list hier_row)
         (range : list nat) (card_info : list card.t)
  : list card.t * result unit :=
  match range with
  | [] => (card_info, Ok ())
  | i :: rest =>
      match index cnts_sort i, index hier_sort i with
      | Ok c, Ok row =>
          let size := contourArea c in
          let peri := arcLength c in
          let accuracy := (POLY_ACC_CONST * peri)%Q in
          let approx := approxPolyDP c accuracy in
          let card_info :=
            if is_card size approx row
            then card_info ++ [new_card c approx] else card_info in
          find_cards cnts_sort hier_sort rest card_info
      | Raise e, _ | _, Raise e => (card_info, Raise e)
      end
  end.

(** The cards are fresh objects; the function returns their values. *)
Definition get_card_contours (image : color_image) : result (list card.t) :=
  let card_info := [] in
  gray ← cvtColor_BGR2GRAY image;
  let blur := GaussianBlur gray in
  let thresh_level := CARD_THRESH in
  let thresh := threshold_binary blur thresh_level in
  let cnts := fst (findContours thresh) in
  let hier := snd (findContours thresh) in
  let index_sort := sorted_reverse (area_key cnts) (seq 0 (length cnts)) in
  (* try: *)
  match fill_sorted cnts hier index_sort [] [] with
  | Ok (cnts_sort, hier_sort) =>
      let card_info :=
        fst (find_cards cnts_sort hier_sort
                        (seq 0 (length cnts_sort)) card_info) in
      (* an exception in the loop is passed over as well *)
      Ok card_info
  | Raise _ =>
      (* except: pass *)
      Ok card_info
  end.
End GetCardContours.

(** ** [process_card] *)

(** Card objects live in a store and are passed by reference. *)
Definition loc : Type := nat.
Abbreviation store := (gmap nat card.t).

(** A statement sequence that reads and writes the store and may raise. *)
Definition M (A : Type) : Type := store -> store * result A.

#[global] Instance M_ret : MRet M := fun _ a σ => (σ, Ok a).
#[global] Instance M_bind : MBind M := fun _ _ k m σ =>
  match m σ with
  | (σ', Ok a) => k a σ'
  | (σ', Raise e) => (σ', Raise e)
  end.

Definition lift {A} (r : result A) : M A := fun σ => (σ, r).

(** [obj.attr] *)
Definition getattr {A} (l : loc) (attr : card.t -> A) : M A := fun σ =>
  match σ !! l with
  | Some c => (σ, Ok (attr c))
  | None => (σ, Raise TypeError)
  end.

(** [obj.attr = v], with [set] the update of that attribute. *)
Definition setattr (l : loc) (set : card.t -> card.t) : M unit := fun σ =>
  match σ !! l with
  | Some c => (<[l := set c]> σ, Ok tt)
  | None => (σ, Raise TypeError)
  end.

Section ProcessCard.
Context `{cv : OpenCV}.

(** Lines 147-149: the mean of the corner points, each coordinate
    truncated by [int()].  With no point the division yields NaN and the
    statements raise: [ValueError] at [int()] for an empty array, and
    [IndexError] at [average[0][0]] for the empty list that [card()]
    leaves; the kind is not told apart here. *)
Definition center_of (pts : list point) : result (Z * Z) :=
  match pts with
  | [] => Raise ValueError
  | _ =>
      let n := Z.of_nat (length pts) in
      Ok (Z.quot (foldr Z.add 0 (px <$> pts)) n,
          Z.quot (foldr Z.add 0 (py <$> pts)) n)
  end.

(** Line 158: [this_card.img[0:CORNER_HEIGHT, 0:CORNER_WIDTH]] *)
Definition corner_crop (img : gray_image) : gray_image :=
  slice2 img 0 CORNER_HEIGHT 0 CORNER_WIDTH.

(** Line 168: [sorted(this_rank_cnts, key=cv2.contourArea, reverse=True)] *)
Definition sort_rank_cnts (cnts : list contour) : list contour :=
  sorted_reverse contourArea cnts.

(** Lines 172-174, for the first curve of the sorted list. *)
Definition rank_glyph (thresh : gray_image) (c : contour) : result gray_image :=
  '(x1, y1, w1, h1) ← boundingRect c;
  let rank_crop := slice2 thresh y1 (y1 + h1) x1 (x1 + w1) in
  resize rank_crop (RANK_WIDTH, RANK_HEIGHT).

Definition process_card (this_card : loc) (image : color_image) : M loc :=
  cnt ← getattr this_card card.contour;
  '(x, y, w, h) ← lift (boundingRect cnt);
  _ ← setattr this_card (card.set_width w);
  _ ← setattr this_card (card.set_height h);
  pts ← getattr this_card card.corner_pts;
  '(cent_x, cent_y) ← lift (center_of pts);
  _ ← setattr this_card (card.set_center [cent_x; cent_y]);
  warp ← lift (flattener image pts w h);
  _ ← setattr this_card (card.set_img warp);
  img ← getattr this_card card.img;
  let rank_img := corner_crop img in
  let thresh := threshold_otsu rank_img in
  let this_rank_cnts := fst (findContours thresh) in
  let this_rank_cnts := sort_rank_cnts this_rank_cnts in
  _ ← (match this_rank_cnts with
       | c :: _ =>
           glyph ← lift (rank_glyph thresh c);
           setattr this_card (card.set_rank_img glyph)
       | [] => mret tt
       end);
  mret this_card.
End ProcessCard.

(** ** [get_card_rank] *)

(** The objects bound at module level. *)
Inductive pyobj : Type :=
| PyModule (name : string)
| PyInt (n : Z)
| PyFloat (q : Q)
| PyClass (name : string)
| PyFunction (name : string)
| PyImage (a : list (list Z)).

(** The global namespace of [cards.py] once the module is loaded. *)
Definition cards_globals : gmap string pyobj :=
  list_to_map
    [ ("cv2", PyModule "cv2"); ("os", PyModule "os");
      ("copy", PyModule "copy"); ("np", PyModule "numpy");
      ("plt", PyModule "matplotlib.pyplot");
      ("CARD_MAX_AREA", PyInt CARD_MAX_AREA);
      ("CARD_MIN_AREA", PyInt CARD_MIN_AREA);
      ("CORNER_HEIGHT", PyInt CORNER_HEIGHT);
      ("CORNER_WIDTH", PyInt CORNER_WIDTH);
      ("RANK_HEIGHT", PyInt RANK_HEIGHT);
      ("RANK_WIDTH", PyInt RANK_WIDTH);
      ("POLY_ACC_CONST", PyFloat POLY_ACC_CONST);
      ("CARD_THRESH", PyInt CARD_THRESH);
      ("RANK_THRESH", PyInt RANK_THRESH);
      ("card", PyClass "card"); ("rank", PyClass "rank");
      ("get_card_contours", PyFunction "get_card_contours");
      ("process_card", PyFunction "process_card");
      ("get_card_rank", PyFunction "get_card_rank");
      ("load_ranks", PyFunction "load_ranks");
      ("flattener", PyFunction "flattener") ].

(** Reading a name inside a function: the parameters and local variables
    first, then the module's globals.  None of the names read below is a
    builtin, so a name found in neither raises [NameError]. *)
Definition load_name (locals : gmap string pyobj) (x : string) : result pyobj :=
  match locals !! x with
  | Some v => Ok v
  | None =>
      match cards_globals !! x with
      | Some v => Ok v
      | None => Raise (NameError x)
      end
  end.

(** The body is the single statement
    [return rank_image, rank_match, match_score]. *)
Definition get_card_rank (card_img : list (list Z))
  : result (pyobj * pyobj * pyobj) :=
  let locals : gmap string pyobj := {[ "card_img" := PyImage card_img ]} in
  rank_image ← load_name locals "rank_image";
  rank_match ← load_name locals "rank_match";
  match_score ← load_name locals "match_score";
  Ok (rank_image, rank_match, match_score).

(** ** [load_ranks] *)

Section LoadRanks.
(** [cv2.imread(img_path, cv2.IMREAD_GRAYSCALE)] on the file system at
    hand: the decoded image, or [None] when the file is missing or cannot
    be read.  It does not raise. *)
Context (imread : string -> option (list (list Z))).

Definition rank_names : list string :=
  ["Ace"; "Two"; "Three"; "Four"; "Five"; "Six"; "Seven"; "Eight";
   "Nine"; "Ten"; "Jack"; "Queen"; "King"]%string.

Fixpoint load_ranks_loop (path : string) (names : list string)
         (ranks : list rank.t) : list rank.t :=
  match names with
  | [] => ranks
  | name :: rest =>
      let new_rank := rank.init in
      let img_path := path_join path (name ++ ".jpg")%string in
      let new_rank := rank.set_img (imread img_path) new_rank in
      let new_rank := rank.set_rank name new_rank in
      load_ranks_loop path rest (ranks ++ [new_rank])
  end.

Definition load_ranks (path : string) : result (list rank.t) :=
  let ranks := [] in
  Ok (load_ranks_loop path rank_names ranks).
End LoadRanks.

(** ** Vocabulary of the statements *)

Definition psum (p : point) : Z := px p + py p.
Definition pdiff (p : point) : Z := py p - px p.

(** [p] is a point of [pts] at which [f] is least. *)
Definition least_at (f : point -> Z) (pts : list point) (p : point) : Prop :=
  p ∈ pts /\ forall q, q ∈ pts -> f p <= f q.

(** [p] is a point of [pts] at which [f] is greatest. *)
Definition greatest_at (f : point -> Z) (pts : list point) (p : point) : Prop :=
  p ∈ pts /\ forall q, q ∈ pts -> f q <= f p.

(** Order of a stable ascending sort: smaller key first, and among equal
    keys the order [before] in which the elements came in. *)
Definition ascending {A} (key : A -> Q) (before : A -> A -> Prop) (a b : A)
  : Prop :=
  (key a < key b)%Q \/ ((key a == key b)%Q /\ before a b).

(** Order of [sorted(..., reverse=True)]: greater key first, and among
    equal keys the input order. *)
Definition descending {A} (key : A -> Q) (before : A -> A -> Prop) (a b : A)
  : Prop :=
  (key b < key a)%Q \/ ((key a == key b)%Q /\ before a b).

(** What [cv2.findContours] promises about the curves of a non-empty image:
    none is empty, and all their points are pixels of the image. *)
Definition contours_inside `{cv : OpenCV} : Prop :=
  forall (img : gray_image) (rows cols : nat) (c : contour),
    shape img rows cols -> (0 < rows)%nat -> (0 < cols)%nat ->
    c ∈ fst (findContours img) ->
    c <> [] /\ Forall (fun p => 0 <= px p < Z.of_nat cols
                                /\ 0 <= py p < Z.of_nat rows) c.



(** The tests of [flattener] as Python evaluates them, in binary64: the
    integer is converted exactly and the product is rounded. *)
Definition binary64_of_Z (n : Z) : float :=
  PrimFloat.of_uint63 (Uint63.of_Z n).

Definition f0_8 : float := 0x1.999999999999ap-1%float.
Definition f1_2 : float := 0x1.3333333333333p+0%float.

Definition tests_binary64 (w h : Z) : bool * bool * bool * bool :=
  let fw := binary64_of_Z w in
  let fh := binary64_of_Z h in
  (PrimFloat.leb fw (PrimFloat.mul f0_8 fh),
   PrimFloat.leb (PrimFloat.mul f1_2 fh) fw,
   PrimFloat.ltb (PrimFloat.mul f0_8 fh) fw,
   PrimFloat.ltb fw (PrimFloat.mul f1_2 fh)).

Definition tests_exact (w h : Z) : bool * bool * bool * bool :=
  (Qle_bool (inject_Z w) (0.8 * inject_Z h),
   Qle_bool (1.2 * inject_Z h) (inject_Z w),
   Qltb (0.8 * inject_Z h) (inject_Z w),
   Qltb (inject_Z w) (1.2 * inject_Z h)).

Definition tests_agree (w h : Z) : bool :=
  match tests_binary64 w h, tests_exact w h with
  | (a, b, c, d), (a', b', c', d') =>
      Bool.eqb a a' && Bool.eqb b b' && Bool.eqb c c' && Bool.eqb d d'
  end.

(** ** Fixtures *)

(** A stand-in for OpenCV that finds the same curves in every image and
    approximates every curve by itself. *)
Definition cv_fixed (cnts : list contour) (hier : option (list hier_row))
  : OpenCV :=
  {| gray_of_bgr := fun '(b, g, r) => (114 * b + 587 * g + 299 * r) / 1000;
     GaussianBlur := fun a => a;
     otsu_level := fun _ => 127;
     findContours := fun _ => (cnts, hier);
     arcLength := fun _ => 0%Q;
     approxPolyDP := fun c _ => c;
     Mat3 := unit;
     getPerspectiveTransform := fun _ _ => tt;
     warp_pixel := fun _ _ _ _ => (0, 0, 0);
     resize_pixel := fun _ _ _ _ _ => 0 |}.

Definition top_level : hier_row := HierRow (-1) (-1) (-1) (-1).

(** Axis-parallel rectangle with corner [(x, y)], [w] wide and [h] high. *)
Definition rect (x y w h : Z) : contour :=
  [(x, y); (x + w, y); (x + w, y + h); (x, y + h)].

Definition one_pixel : color_image := [[(255, 255, 255)]].

(** A photograph of 100 rows and 150 columns: a white card that covers the
    pixels of [rect x y w h] and what they enclose, on a black table. *)
Definition scene (x y w h : Z) : color_image :=
  (fun r : nat =>
     (fun c : nat =>
        if (x <=? Z.of_nat c) && (Z.of_nat c <=? x + w)
           && (y <=? Z.of_nat r) && (Z.of_nat r <=? y + h)
        then (255, 255, 255) else (0, 0, 0))
       <$> seq 0 150)
    <$> seq 0 100.

(** The corners of an upright card, in the order of a polygon walk. *)
Definition upright_quad : list point := [(10, 10); (60, 12); (62, 90); (8, 88)].


(** No file can be read. *)
Definition no_files : string -> option (list (list Z)) := fun _ => None.

(** ** [main.py] *)

Module Main.

(** What can stop the driver: a name missing from a module, or an exception
    that comes out of [cards.py]. *)
Inductive error : Type :=
| AttributeError (module attr : string)
| Cards (e : exn).

Inductive outcome (A : Type) : Type :=
| Return (a : A)
| Uncaught (e : error).
Arguments Return {A} a.
Arguments Uncaught {A} e.

Definition bind {A B} (m : outcome A) (k : A -> outcome B) : outcome B :=
  match m with
  | Return a => k a
  | Uncaught e => Uncaught e
  end.

(** [cards.x]: the attribute [x] of the module object, looked up in the
    module's namespace. *)
Definition cards_attr (x : string) : outcome pyobj :=
  match cards_globals !! x with
  | Some v => Return v
  | None => Uncaught (AttributeError "cards" x)
  end.

Definition of_cards {A} (r : result A) : outcome A :=
  match r with
  | Ok a => Return a
  | Raise e => Uncaught (Cards e)
  end.

Definition rank_path : string := "card_images".

Section Driver.
(** The two uses of [cv2.imread] on the file system at hand, and lines
    25-44, which run once [all_cards] is there. *)
Context (imread_gray : string -> option (list (list Z))).
Context (imread_color : string -> option (list (list bgr))).
Context (per_card_loop :
           list rank.t -> option (list (list bgr)) -> pyobj -> outcome unit).

(** Lines 15-23 and what follows them. *)
Definition main : outcome unit :=
  bind (cards_attr "load_ranks") (fun _ =>
  bind (of_cards (load_ranks imread_gray rank_path)) (fun ranks =>
  let img := imread_color (path_join "game_images" "transformed_small1.png") in
  let img_disp := img in
  bind (cards_attr "findCards") (fun findCards =>
  per_card_loop ranks img findCards))).
End Driver.

End Main.

(** ** More vocabulary *)

(** [m] touches nothing but the card at [l], and what it does to that card
    and what it returns do not depend on the rest of the store. *)
Definition local {A} (l : loc) (m : M A) : Prop :=
  forall c : card.t,
  exists c' r, forall σ : store, m (<[l := c]> σ) = (<[l := c']> σ, r).

(** [cv2.GaussianBlur] returns an image of the size of its source. *)
Definition blur_keeps_shape `{cv : OpenCV} : Prop :=
  forall (img : gray_image) (rows cols : nat),
    shape img rows cols -> shape (GaussianBlur img) rows cols.

(** A card as [get_card_contours] creates it: the curve, its polygon of four
    vertices, an area strictly inside the bounds, and every other attribute
    as [card()] leaves it. *)
Definition fresh_card `{cv : OpenCV} (x : card.t) : Prop :=
  card.corner_pts x
  = approxPolyDP (card.contour x) (POLY_ACC_CONST * arcLength (card.contour x))
  /\ length (card.corner_pts x) = 4%nat
  /\ (inject_Z CARD_MIN_AREA < contourArea (card.contour x))%Q
  /\ (contourArea (card.contour x) < inject_Z CARD_MAX_AREA)%Q
  /\ card.best_rank_match x = "Unknown"%string
  /\ card.rank_diff x = 0
  /\ card.center x = [] /\ card.img x = [] /\ card.rank_img x = []
  /\ card.width x = None /\ card.height x = None.

(** A stand-in for OpenCV that finds one card-sized curve in every image of
    more than 80 rows and 90 columns, and nothing in smaller ones. *)
Definition cv_scene : OpenCV :=
  {| gray_of_bgr := fun '(b, g, r) => (114 * b + 587 * g + 299 * r) / 1000;
     GaussianBlur := fun a => a;
     otsu_level := fun _ => 127;
     findContours := fun img =>
       if (80 <? length img)%nat
          && forallb (fun row : list Z => (90 <? length row)%nat) img
       then ([rect 10 10 70 60], Some [top_level])
       else ([], None);
     arcLength := fun _ => 0%Q;
     approxPolyDP := fun c _ => c;
     Mat3 := unit;
     getPerspectiveTransform := fun _ _ => tt;
     warp_pixel := fun _ _ _ _ => (0, 0, 0);
     resize_pixel := fun _ _ _ _ _ => 0 |}.

(** The gray image of [scene] under [cv_scene]. *)
Definition scene_gray (x y w h : Z) : gray_image :=
  (fun row : list bgr => gray_of_bgr (OpenCV := cv_scene) <$> row)
    <$> scene x y w h.

(** Two cards of a hand, as [get_card_contours] would create them. *)
Definition two_cards : store :=
  {[ 0%nat := new_card (rect 0 0 80 60) (rect 0 0 80 60);
     1%nat := new_card (rect 100 0 70 60) (rect 100 0 70 60) ]}.

(** * Properties *)

(** ** Comparisons *)

Lemma Qltb_lt (a b : Q) : Qltb a b = true <-> (a < b)%Q.
Proof.
  unfold Qltb. rewrite negb_true_iff. split.
  - intros H. apply Qnot_le_lt. intros Hle.
    apply Qle_bool_iff in Hle. congruence.
  - intros H. destruct (Qle_bool b a) eqn:E; [|reflexivity].
    apply Qle_bool_iff in E. exfalso. exact (Qlt_not_le _ _ H E).
Qed.

Lemma Qle_bool_false (a b : Q) : Qle_bool a b = false <-> (b < a)%Q.
Proof.
  rewrite <- Qltb_lt. unfold Qltb. rewrite negb_true_iff. reflexivity.
Qed.

(** The three tests of [flattener] on integers: [w <= 0.8*h] is
    [5 w <= 4 h] and [w >= 1.2*h] is [6 h <= 5 w]. *)
Lemma vertical_test (w h : Z) :
  (inject_Z w <= 0.8 * inject_Z h)%Q <-> 5 * w <= 4 * h.
Proof. unfold Qle, Qmult, inject_Z. simpl. lia. Qed.

Lemma horizontal_test (w h : Z) :
  (1.2 * inject_Z h <= inject_Z w)%Q <-> 6 * h <= 5 * w.
Proof. unfold Qle, Qmult, inject_Z. simpl. lia. Qed.

Lemma above_vertical_test (w h : Z) :
  (0.8 * inject_Z h < inject_Z w)%Q <-> 4 * h < 5 * w.
Proof. unfold Qlt, Qmult, inject_Z. simpl. lia. Qed.

Lemma below_horizontal_test (w h : Z) :
  (inject_Z w < 1.2 * inject_Z h)%Q <-> 5 * w < 6 * h.
Proof. unfold Qlt, Qmult, inject_Z. simpl. lia. Qed.

(** ** [np.argmin] and [np.argmax] *)

Section ArgFrom.
Variable better : Z -> Z -> bool.
Variable le : Z -> Z -> Prop.
Hypothesis better_true : forall v b, better v b = true -> le v b.
Hypothesis better_false : forall v b, better v b = false -> le b v.
Hypothesis le_trans : forall a b c, le a b -> le b c -> le a c.
Hypothesis le_refl : forall a, le a a.

Lemma arg_from_spec (l : list Z) : forall best_i best i,
  (Np.arg_from better best_i best i l = best_i /\ Forall (le best) l)
  \/ (exists j v, Np.arg_from better best_i best i l = (i + j)%nat
                  /\ l !! j = Some v /\ le v best /\ Forall (le v) l).
Proof.
  induction l as [|v l IH]; intros best_i best i; simpl.
  - left. split; [reflexivity | constructor].
  - destruct (better v best) eqn:E.
    + right. destruct (IH i v (S i)) as [[Hk Hall] | (j & u & Hk & Hj & Hu & Hall)].
      * exists 0%nat, v. rewrite Hk. repeat split; auto with lia.
      * exists (S j), u. rewrite Hk.
        split; [lia|]. split; [exact Hj|].
        split; [eapply le_trans; eauto|].
        constructor; auto.
    + destruct (IH best_i best (S i)) as [[Hk Hall] | (j & u & Hk & Hj & Hu & Hall)].
      * left. split; auto.
      * right. exists (S j), u. rewrite Hk.
        split; [lia|]. split; [exact Hj|]. split; [exact Hu|].
        constructor; auto. eapply le_trans; eauto.
Qed.
End ArgFrom.

Lemma argmin_index (f : point -> Z) (pts : list point) :
  pts <> [] ->
  exists i p, Np.argmin (f <$> pts) = Ok i /\ index pts i = Ok p
              /\ least_at f pts p.
Proof.
  destruct pts as [|p0 pts]; [congruence|]. intros _.
  rewrite fmap_cons. unfold Np.argmin, Np.argmax.
  destruct (arg_from_spec Z.ltb Z.le) with (l := f <$> pts)
    (best_i := 0%nat) (best := f p0) (i := 1%nat)
    as [[Hk Hall] | (j & u & Hk & Hj & Hu & Hall)].
  - intros v b H. apply Z.ltb_lt in H. lia.
  - intros v b H. apply Z.ltb_ge in H. lia.
  - intros; lia.
  - intros; lia.
  - exists 0%nat, p0. rewrite Hk. repeat split; auto.
    + left.
    + intros q Hq. apply elem_of_cons in Hq as [-> | Hq]; [lia|].
      rewrite Forall_fmap, Forall_forall in Hall. apply (Hall q Hq).
  - rewrite list_lookup_fmap in Hj.
    destruct (pts !! j) as [p|] eqn:Ep; [|discriminate].
    simpl in Hj. injection Hj as <-.
    exists (1 + j)%nat, p. rewrite Hk. unfold index. simpl. rewrite Ep.
    repeat split; auto.
    + right. eapply list_elem_of_lookup_2; eauto.
    + intros q Hq. apply elem_of_cons in Hq as [-> | Hq]; [lia|].
      rewrite Forall_fmap, Forall_forall in Hall. apply (Hall q Hq).
Qed.

Lemma argmax_index (f : point -> Z) (pts : list point) :
  pts <> [] ->
  exists i p, Np.argmax (f <$> pts) = Ok i /\ index pts i = Ok p
              /\ greatest_at f pts p.
Proof.
  destruct pts as [|p0 pts]; [congruence|]. intros _.
  rewrite fmap_cons. unfold Np.argmin, Np.argmax.
  destruct (arg_from_spec Z.gtb Z.ge) with (l := f <$> pts)
    (best_i := 0%nat) (best := f p0) (i := 1%nat)
    as [[Hk Hall] | (j & u & Hk & Hj & Hu & Hall)].
  - intros v b H. apply Z.gtb_lt in H. lia.
  - intros v b H. rewrite Z.gtb_ltb in H. apply Z.ltb_ge in H. lia.
  - intros; lia.
  - intros; lia.
  - exists 0%nat, p0. rewrite Hk. repeat split; auto.
    + left.
    + intros q Hq. apply elem_of_cons in Hq as [-> | Hq]; [lia|].
      rewrite Forall_fmap, Forall_forall in Hall.
      specialize (Hall q Hq). simpl in Hall. lia.
  - rewrite list_lookup_fmap in Hj.
    destruct (pts !! j) as [p|] eqn:Ep; [|discriminate].
    simpl in Hj. injection Hj as <-.
    exists (1 + j)%nat, p. rewrite Hk. unfold index. simpl. rewrite Ep.
    repeat split; auto.
    + right. eapply list_elem_of_lookup_2; eauto.
    + intros q Hq. apply elem_of_cons in Hq as [-> | Hq]; [lia|].
      rewrite Forall_fmap, Forall_forall in Hall.
      specialize (Hall q Hq). simpl in Hall. lia.
Qed.

(** The four extreme corners [tl], [br], [tr], [bl] of lines 212-219 exist
    for every non-empty [pts], and the tests on [w] and [h] come next. *)
Lemma flattener_rect_extrema (pts : list point) (w h : Z) :
  pts <> [] ->
  exists tl tr br bl,
    least_at psum pts tl /\ least_at pdiff pts tr
    /\ greatest_at psum pts br /\ greatest_at pdiff pts bl
    /\ flattener_rect pts w h =
       let temp_rect := replicate 4 (0, 0) in
       let temp_rect :=
         if Qle_bool (inject_Z w) (0.8 * inject_Z h)
         then assign4 tl tr br bl temp_rect else temp_rect in
       let temp_rect :=
         if Qle_bool (1.2 * inject_Z h) (inject_Z w)
         then assign4 bl tl tr br temp_rect else temp_rect in
       if Qltb (0.8 * inject_Z h) (inject_Z w)
          && Qltb (inject_Z w) (1.2 * inject_Z h)
       then flattener_diamond pts temp_rect
       else Ok temp_rect.
Proof.
  intros Hne.
  destruct (argmin_index psum pts Hne) as (i1 & tl & Ha1 & Hi1 & Htl).
  destruct (argmax_index psum pts Hne) as (i2 & br & Ha2 & Hi2 & Hbr).
  destruct (argmin_index pdiff pts Hne) as (i3 & tr & Ha3 & Hi3 & Htr).
  destruct (argmax_index pdiff pts Hne) as (i4 & bl & Ha4 & Hi4 & Hbl).
  exists tl, tr, br, bl. repeat (split; [assumption|]).
  unfold flattener_rect, np_sum_axis2, np_diff_last.
  change (fun p : point => px p + py p) with psum.
  change (fun p : point => py p - px p) with pdiff.
  rewrite Ha1, Ha2, Ha3, Ha4. simpl.
  rewrite Hi1, Hi2, Hi3, Hi4. reflexivity.
Qed.

(** ** [flattener] *)

Ltac decide_tests :=
  repeat match goal with
  | |- context [Qle_bool ?a ?b] =>
      first
        [ replace (Qle_bool a b) with true
            by (symmetry; apply Qle_bool_iff;
                first [apply vertical_test | apply horizontal_test]; lia)
        | replace (Qle_bool a b) with false
            by (symmetry; apply Qle_bool_false;
                first [apply above_vertical_test
                      | apply below_horizontal_test]; lia) ]
  | |- context [Qltb ?a ?b] =>
      first
        [ replace (Qltb a b) with true
            by (symmetry; apply Qltb_lt;
                first [apply above_vertical_test
                      | apply below_horizontal_test]; lia)
        | replace (Qltb a b) with false
            by (symmetry; apply negb_false_iff, Qle_bool_iff;
                first [apply vertical_test | apply horizontal_test]; lia) ]
  end.

Lemma flattener_diamond_total (p0 p1 p2 p3 : point) (temp_rect : list point) :
  flattener_diamond [p0; p1; p2; p3] temp_rect =
  Ok (if py p1 <=? py p3 then assign4 p1 p0 p3 p2 temp_rect
      else assign4 p0 p3 p2 p1 temp_rect).
Proof.
  unfold flattener_diamond. simpl.
  destruct (py p1 <=? py p3) eqn:E; simpl.
  - replace (py p1 >? py p3) with false; [reflexivity|].
    symmetry. rewrite Z.gtb_ltb. apply Z.ltb_ge. apply Z.leb_le in E. lia.
  - replace (py p1 >? py p3) with true; [reflexivity|].
    symmetry. rewrite Z.gtb_ltb. apply Z.ltb_lt. apply Z.leb_gt in E. lia.
Qed.

Lemma four_points (pts : list point) :
  length pts = 4%nat -> exists p0 p1 p2 p3, pts = [p0; p1; p2; p3].
Proof.
  intros H. destruct pts as [|p0 [|p1 [|p2 [|p3 [|? ?]]]]]; try discriminate.
  eauto.
Qed.

Lemma length_assign4 (a b c d : point) (r : list point) :
  length (assign4 a b c d r) = length r.
Proof. unfold assign4. rewrite !length_insert. reflexivity. Qed.

(** [flattener_rect] never raises on four points, whatever [w] and [h]. *)
Lemma flattener_rect_total (pts : list point) (w h : Z) :
  length pts = 4%nat ->
  exists temp_rect, flattener_rect pts w h = Ok temp_rect
                    /\ length temp_rect = 4%nat.
Proof.
  intros Hlen.
  assert (Hne : pts <> []) by (intros ->; discriminate).
  destruct (flattener_rect_extrema pts w h Hne)
    as (tl & tr & br & bl & _ & _ & _ & _ & ->).
  destruct (four_points pts Hlen) as (p0 & p1 & p2 & p3 & ->).
  cbv zeta.
  destruct (Qltb _ _ && Qltb _ _).
  - rewrite flattener_diamond_total. eexists. split; [reflexivity|].
    destruct (py p1 <=? py p3); rewrite length_assign4;
      destruct (Qle_bool _ _), (Qle_bool _ _);
      rewrite ?length_assign4; reflexivity.
  - eexists. split; [reflexivity|].
    destruct (Qle_bool _ _), (Qle_bool _ _);
      rewrite ?length_assign4; reflexivity.
Qed.

Lemma shape_table {A} (g : nat -> nat -> A) (rows cols : nat) :
  shape ((fun y : nat => (fun x : nat => g x y) <$> seq 0 cols) <$> seq 0 rows)
        rows cols.
Proof.
  split.
  - rewrite length_fmap, length_seq. reflexivity.
  - apply Forall_fmap, Forall_forall. intros y _. simpl.
    rewrite length_fmap, length_seq. reflexivity.
Qed.

Lemma shape_total {A} (a : list (list A)) (rows cols : nat) :
  shape a rows cols -> (0 < rows)%nat -> (0 < cols)%nat -> total a <> 0%nat.
Proof.
  intros [Hr Hc] Hrows Hcols. destruct a as [|r a]; simpl in *; [lia|].
  apply Forall_cons in Hc as [Hc _]. unfold total. simpl.
  rewrite length_app. lia.
Qed.

Lemma shape_fmap {A B} (f : A -> B) (a : list (list A)) (rows cols : nat) :
  shape a rows cols ->
  shape ((fun row : list A => f <$> row) <$> a) rows cols.
Proof.
  intros [Hr Hc]. split.
  - rewrite length_fmap. exact Hr.
  - apply Forall_fmap. eapply Forall_impl; [exact Hc|].
    intros r Hl. simpl. rewrite length_fmap. exact Hl.
Qed.

Lemma total_zero_test {A} (a : list (list A)) :
  total a <> 0%nat -> Nat.eqb (total a) 0 = false.
Proof. intros H. apply Nat.eqb_neq. exact H. Qed.

Section FlattenerFacts.
Context `{cv : OpenCV}.

Lemma warpPerspective_shape (image : color_image) (M : Mat3) :
  total image <> 0%nat ->
  exists warp, warpPerspective image M (maxWidth, maxHeight) = Ok warp
               /\ shape warp 300 200.
Proof.
  intros H. unfold warpPerspective. rewrite (total_zero_test _ H).
  eexists. split; [reflexivity|].
  apply (shape_table (fun x y => warp_pixel image M x y) 300 200).
Qed.

Lemma cvtColor_shape (image : color_image) (rows cols : nat) :
  shape image rows cols -> (0 < rows)%nat -> (0 < cols)%nat ->
  exists gray, cvtColor_BGR2GRAY image = Ok gray /\ shape gray rows cols.
Proof.
  intros Hs Hr Hc. unfold cvtColor_BGR2GRAY.
  rewrite (total_zero_test _ (shape_total _ _ _ Hs Hr Hc)).
  eexists. split; [reflexivity|]. apply shape_fmap. exact Hs.
Qed.

Lemma flattener_returns (image : color_image) (pts : list point) (w h : Z) :
  length pts = 4%nat -> total image <> 0%nat ->
  exists warp, flattener image pts w h = Ok warp /\ shape warp 300 200.
Proof.
  intros Hlen Himg. unfold flattener.
  destruct (flattener_rect_total pts w h Hlen) as (temp_rect & -> & _).
  simpl.
  destruct (warpPerspective_shape image
              (getPerspectiveTransform temp_rect
                 [(0, 0); (maxWidth - 1, 0);
                  (maxWidth - 1, maxHeight - 1); (0, maxHeight - 1)]) Himg)
    as (warp & -> & Hs).
  simpl. apply cvtColor_shape; [exact Hs | lia | lia].
Qed.
End FlattenerFacts.

(** C2.  For four corner points and a bounding box of positive height, the
    corners [tl], [tr], [br], [bl] are points of least x+y, least y-x,
    greatest x+y and greatest y-x; [flattener] orders them
    [tl, tr, br, bl] when [w <= 0.8 h] (vertical) and [bl, tl, tr, br] when
    [w >= 1.2 h] (horizontal), and in every other case runs the diamond
    branch on the zero-initialised rectangle. *)
Theorem flattener_orientation (pts : list point) (w h : Z) :
  length pts = 4%nat -> 0 < h ->
  exists tl tr br bl,
    least_at psum pts tl /\ least_at pdiff pts tr
    /\ greatest_at psum pts br /\ greatest_at pdiff pts bl
    /\ ((inject_Z w <= 0.8 * inject_Z h)%Q ->
        flattener_rect pts w h = Ok [tl; tr; br; bl])
    /\ ((1.2 * inject_Z h <= inject_Z w)%Q ->
        flattener_rect pts w h = Ok [bl; tl; tr; br])
    /\ (~ (inject_Z w <= 0.8 * inject_Z h)%Q ->
        ~ (1.2 * inject_Z h <= inject_Z w)%Q ->
        flattener_rect pts w h = flattener_diamond pts (replicate 4 (0, 0))).
Proof.
  intros Hlen Hh.
  assert (Hne : pts <> []) by (intros ->; discriminate).
  destruct (flattener_rect_extrema pts w h Hne)
    as (tl & tr & br & bl & Htl & Htr & Hbr & Hbl & ->).
  exists tl, tr, br, bl. repeat (split; [assumption|]).
  cbv zeta. repeat split.
  - intros Hv. apply vertical_test in Hv. decide_tests. reflexivity.
  - intros Hz. apply horizontal_test in Hz. decide_tests. reflexivity.
  - intros Hv Hz. rewrite vertical_test in Hv. rewrite horizontal_test in Hz.
    decide_tests. reflexivity.
Qed.

Lemma flattener_orientation_witness :
  exists tl tr br bl,
    least_at psum upright_quad tl /\ least_at pdiff upright_quad tr
    /\ greatest_at psum upright_quad br /\ greatest_at pdiff upright_quad bl
    /\ ((inject_Z 55 <= 0.8 * inject_Z 81)%Q ->
        flattener_rect upright_quad 55 81 = Ok [tl; tr; br; bl])
    /\ ((1.2 * inject_Z 81 <= inject_Z 55)%Q ->
        flattener_rect upright_quad 55 81 = Ok [bl; tl; tr; br])
    /\ (~ (inject_Z 55 <= 0.8 * inject_Z 81)%Q ->
        ~ (1.2 * inject_Z 81 <= inject_Z 55)%Q ->
        flattener_rect upright_quad 55 81
        = flattener_diamond upright_quad (replicate 4 (0, 0))).
Proof.
  apply (flattener_orientation upright_quad 55 81); [reflexivity | lia].
Defined.

(** C3.  In the diamond case, [0.8 h < w < 1.2 h], the corners are taken by
    vertex position alone: vertices 1, 0, 3, 2 when vertex 1 is not lower
    than vertex 3 ([y1 <= y3]), and vertices 0, 3, 2, 1 when [y1 > y3]. *)
Theorem flattener_diamond_order (p0 p1 p2 p3 : point) (w h : Z) :
  (0.8 * inject_Z h < inject_Z w)%Q ->
  (inject_Z w < 1.2 * inject_Z h)%Q ->
  (py p1 <= py p3 ->
   flattener_rect [p0; p1; p2; p3] w h = Ok [p1; p0; p3; p2])
  /\ (py p1 > py p3 ->
      flattener_rect [p0; p1; p2; p3] w h = Ok [p0; p3; p2; p1]).
Proof.
  intros Hlo Hhi.
  apply above_vertical_test in Hlo. apply below_horizontal_test in Hhi.
  destruct (flattener_rect_extrema [p0; p1; p2; p3] w h)
    as (tl & tr & br & bl & _ & _ & _ & _ & ->); [discriminate|].
  cbv zeta. decide_tests. simpl. rewrite flattener_diamond_total.
  split; intros Hy.
  - replace (py p1 <=? py p3) with true
      by (symmetry; apply Z.leb_le; lia).
    reflexivity.
  - replace (py p1 <=? py p3) with false
      by (symmetry; apply Z.leb_gt; lia).
    reflexivity.
Qed.

Lemma flattener_diamond_order_witness :
  flattener_rect [(60, 12); (10, 10); (8, 88); (62, 90)] 60 60
  = Ok [(10, 10); (60, 12); (62, 90); (8, 88)].
Proof.
  apply (flattener_diamond_order (60, 12) (10, 10) (8, 88) (62, 90) 60 60);
    [reflexivity | reflexivity | simpl; lia].
Defined.

(** C4.  For every non-empty colour image, every four corner points and
    every [w] and [h], [flattener] returns a single-channel image of 300
    rows and 200 columns. *)
Theorem flattener_output_shape `{cv : OpenCV}
        (image : color_image) (pts : list point) (w h : Z) :
  length pts = 4%nat -> total image <> 0%nat ->
  exists warp : gray_image,
    flattener image pts w h = Ok warp /\ shape warp 300 200.
Proof. apply flattener_returns. Qed.

Lemma flattener_output_shape_witness :
  exists warp : gray_image,
    flattener (cv := cv_fixed [] None) one_pixel upright_quad 55 81 = Ok warp
    /\ shape warp 300 200.
Proof.
  apply (flattener_output_shape (cv := cv_fixed [] None)
           one_pixel upright_quad 55 81);
    [reflexivity | discriminate].
Defined.

(** ** [sorted(..., reverse=True)] *)

Lemma StronglySorted_weaken {A} (R1 R2 : A -> A -> Prop) (l : list A) :
  (forall a b, R1 a b -> R2 a b) ->
  StronglySorted R1 l -> StronglySorted R2 l.
Proof.
  intros Himp. induction 1 as [|x l Hs IH Hx]; constructor; [exact IH|].
  eapply Forall_impl; [exact Hx|]. intros b. apply Himp.
Qed.

Section SortedFacts.
Context {A : Type} (key : A -> Q).

Lemma insert_stable_Permutation (x : A) (l : list A) :
  insert_stable key x l ≡ₚ x :: l.
Proof.
  induction l as [|y l IH]; simpl; [reflexivity|].
  destruct (key_lt key y x); [|reflexivity].
  rewrite IH. apply Permutation_swap.
Qed.

Lemma sort_stable_Permutation (l : list A) : sort_stable key l ≡ₚ l.
Proof.
  induction l as [|x l IH]; simpl; [reflexivity|].
  rewrite insert_stable_Permutation, IH. reflexivity.
Qed.

Lemma sorted_reverse_Permutation (l : list A) : sorted_reverse key l ≡ₚ l.
Proof.
  unfold sorted_reverse.
  rewrite <- Permutation_rev, sort_stable_Permutation, <- Permutation_rev.
  reflexivity.
Qed.

Lemma sorted_reverse_nil_inv (l : list A) :
  sorted_reverse key l = [] -> l = [].
Proof.
  intros H. apply Permutation_nil_r.
  rewrite <- H. symmetry. apply sorted_reverse_Permutation.
Qed.

Lemma ascending_le (before : A -> A -> Prop) (a b : A) :
  ascending key before a b -> (key a <= key b)%Q.
Proof.
  intros [H | [H _]]; [apply Qlt_le_weak; exact H|].
  rewrite H. apply Qle_refl.
Qed.

Lemma insert_stable_sorted (before : A -> A -> Prop) (x : A) (l : list A) :
  StronglySorted (ascending key before) l ->
  Forall (before x) l ->
  StronglySorted (ascending key before) (insert_stable key x l).
Proof.
  induction l as [|y l IH]; intros Hs Hb; simpl.
  - repeat constructor.
  - apply StronglySorted_cons in Hs as [Hy Hs].
    apply Forall_cons in Hb as [Hxy Hb].
    destruct (key_lt key y x) eqn:E.
    + apply StronglySorted_cons. split; [|apply IH; assumption].
      rewrite insert_stable_Permutation. constructor; [|exact Hy].
      left. apply Qltb_lt. exact E.
    + assert (Hle : (key x <= key y)%Q).
      { apply Qle_bool_iff. unfold key_lt in E.
        apply negb_false_iff in E. exact E. }
      apply StronglySorted_cons. split.
      * constructor.
        -- apply Qle_lteq in Hle as [Hlt | Heq]; [left | right]; auto.
        -- rewrite Forall_forall in Hy, Hb |- *. intros z Hz.
           assert (Hxz : (key x <= key z)%Q).
           { eapply Qle_trans; [exact Hle|].
             eapply ascending_le. apply Hy. exact Hz. }
           apply Qle_lteq in Hxz as [Hlt | Heq]; [left | right]; auto.
      * apply StronglySorted_cons. split; assumption.
Qed.

Lemma sort_stable_sorted (before : A -> A -> Prop) (l : list A) :
  StronglySorted before l ->
  StronglySorted (ascending key before) (sort_stable key l).
Proof.
  induction l as [|x l IH]; intros Hs; simpl; [constructor|].
  apply StronglySorted_cons in Hs as [Hx Hs].
  apply insert_stable_sorted; [apply IH; exact Hs|].
  rewrite sort_stable_Permutation. exact Hx.
Qed.

Lemma StronglySorted_rev (R : A -> A -> Prop) (l : list A) :
  StronglySorted R l -> StronglySorted (flip R) (rev l).
Proof.
  induction l as [|x l IH]; intros Hs; simpl; [constructor|].
  apply StronglySorted_cons in Hs as [Hx Hs].
  apply StronglySorted_app_2.
  - intros a b Ha Hb. apply list_elem_of_singleton in Hb as ->.
    unfold flip. rewrite Forall_forall in Hx. apply Hx.
    apply list_elem_of_In. apply in_rev. apply list_elem_of_In. exact Ha.
  - apply IH. exact Hs.
  - repeat constructor.
Qed.

Lemma sorted_reverse_sorted (before : A -> A -> Prop) (l : list A) :
  StronglySorted before l ->
  StronglySorted (descending key before) (sorted_reverse key l).
Proof.
  intros Hs. unfold sorted_reverse.
  apply StronglySorted_rev in Hs.
  apply (sort_stable_sorted (flip before)) in Hs.
  apply StronglySorted_rev in Hs.
  eapply StronglySorted_weaken; [|exact Hs].
  intros a b [H | [H1 H2]]; [left; exact H | right].
  split; [symmetry; exact H1 | exact H2].
Qed.

Lemma StronglySorted_any (l : list A) :
  StronglySorted (fun _ _ => True) l.
Proof.
  induction l; constructor; auto. apply Forall_forall. auto.
Qed.

(** The first element of the sorted list has the greatest key. *)
Lemma sorted_reverse_head (l : list A) (g : A) (rest : list A) :
  sorted_reverse key l = g :: rest ->
  g ∈ l /\ forall d, d ∈ l -> (key d <= key g)%Q.
Proof.
  intros H. split.
  - rewrite <- (sorted_reverse_Permutation l), H. left.
  - intros d Hd. rewrite <- (sorted_reverse_Permutation l), H in Hd.
    pose proof (sorted_reverse_sorted _ l (StronglySorted_any l)) as Hs.
    rewrite H in Hs. apply StronglySorted_cons in Hs as [Hg _].
    apply elem_of_cons in Hd as [-> | Hd]; [apply Qle_refl|].
    rewrite Forall_forall in Hg.
    destruct (Hg d Hd) as [Hlt | [Heq _]].
    + apply Qlt_le_weak. exact Hlt.
    + rewrite Heq. apply Qle_refl.
Qed.
End SortedFacts.

Lemma StronglySorted_sublist {A} (R : A -> A -> Prop) (l1 l2 : list A) :
  l1 `sublist_of` l2 -> StronglySorted R l2 -> StronglySorted R l1.
Proof.
  induction 1 as [|x l1 l2 Hsub IH|x l1 l2 Hsub IH]; intros Hs.
  - constructor.
  - apply StronglySorted_cons in Hs as [Hx Hs].
    apply StronglySorted_cons. split; [|apply IH; exact Hs].
    rewrite Forall_forall in Hx |- *. intros y Hy. apply Hx.
    eapply elem_of_sublist; eauto.
  - apply StronglySorted_cons in Hs as [_ Hs]. apply IH. exact Hs.
Qed.

Lemma seq_sorted (k n : nat) : StronglySorted lt (seq k n).
Proof.
  revert k. induction n as [|n IH]; intros k; simpl; constructor.
  - apply IH.
  - apply Forall_forall. intros j Hj.
    apply list_elem_of_In, in_seq in Hj. lia.
Qed.

(** ** [get_card_contours] *)

Lemma index_nth {A} (l : list A) (i : nat) (d a : A) :
  index l i = Ok a -> a = nth i l d /\ (i < length l)%nat.
Proof.
  unfold index. destruct (l !! i) eqn:E; [|discriminate].
  intros [= <-]. split.
  - symmetry. apply nth_lookup_Some. exact E.
  - eapply lookup_lt_Some. exact E.
Qed.

Lemma nth_seq_fmap {A} (l : list A) (d : A) :
  (fun k => nth k l d) <$> seq 0 (length l) = l.
Proof.
  induction l as [|x l IH]; [reflexivity|].
  simpl. f_equal. rewrite <- fmap_S_seq, <- list_fmap_compose.
  exact IH.
Qed.

Lemma StronglySorted_fmap_inv {A B} (f : A -> B) (R : B -> B -> Prop)
      (l : list A) :
  StronglySorted R (f <$> l) -> StronglySorted (fun a b => R (f a) (f b)) l.
Proof.
  induction l as [|x l IH]; intros Hs; [constructor|].
  rewrite fmap_cons in Hs. apply StronglySorted_cons in Hs as [Hx Hs].
  constructor; [apply IH; exact Hs|].
  rewrite Forall_fmap in Hx. exact Hx.
Qed.

Section GetCardContoursFacts.
Context `{cv : OpenCV}.

Lemma fill_sorted_contours (cnts : list contour)
      (hier : option (list hier_row)) (index_sort : list nat) :
  forall cnts_sort hier_sort cs hs,
    fill_sorted cnts hier index_sort cnts_sort hier_sort = Ok (cs, hs) ->
    cs = cnts_sort ++ ((fun i => nth i cnts []) <$> index_sort).
Proof.
  induction index_sort as [|i rest IH]; intros cnts_sort hier_sort cs hs; simpl.
  - intros [= <- <-]. rewrite app_nil_r. reflexivity.
  - destruct (index cnts i) as [c|e] eqn:Ec; simpl; [|discriminate].
    destruct hier as [rows|]; simpl; [|discriminate].
    destruct (index rows i) as [row|e] eqn:Er; simpl; [|discriminate].
    intros H. apply IH in H. rewrite H, <- app_assoc. simpl.
    apply (index_nth _ _ []) in Ec as [-> _]. reflexivity.
Qed.

Lemma find_cards_contours (cnts_sort : list contour)
      (hier_sort : list hier_row) (range : list nat) :
  forall card_info,
  exists sel,
    sel `sublist_of` range
    /\ card.contour <$> fst (find_cards cnts_sort hier_sort range card_info)
       = (card.contour <$> card_info)
           ++ ((fun i => nth i cnts_sort []) <$> sel).
Proof.
  induction range as [|i rest IH]; intros card_info; simpl.
  - exists []. split; [constructor|]. rewrite app_nil_r. reflexivity.
  - destruct (index cnts_sort i) as [c|e] eqn:Ec.
    + destruct (index hier_sort i) as [row|e] eqn:Er.
      * destruct (is_card _ _ row).
        -- destruct (IH (card_info
                           ++ [new_card c
                                 (approxPolyDP c (POLY_ACC_CONST * arcLength c))]))
             as (sel & Hsub & Heq).
           exists (i :: sel). split; [constructor; exact Hsub|].
           rewrite Heq, fmap_app, <- app_assoc. simpl.
           apply (index_nth _ _ []) in Ec as [-> _]. reflexivity.
        -- destruct (IH card_info) as (sel & Hsub & Heq).
           exists sel. split; [constructor; exact Hsub | exact Heq].
      * exists []. split; [apply sublist_nil_l|].
        simpl. rewrite app_nil_r. reflexivity.
    + exists []. split; [apply sublist_nil_l|].
      simpl. rewrite app_nil_r. reflexivity.
Qed.

(** The cards returned are the curves at a sub-sequence of
    [index_sort]. *)
Lemma get_card_contours_selection (image : color_image) (gray : gray_image) :
  cvtColor_BGR2GRAY image = Ok gray ->
  let cnts := fst (findContours
                     (threshold_binary (GaussianBlur gray) CARD_THRESH)) in
  exists cards idx,
    get_card_contours image = Ok cards
    /\ idx `sublist_of`
         sorted_reverse (area_key cnts) (seq 0 (length cnts))
    /\ card.contour <$> cards = (fun i => nth i cnts []) <$> idx.
Proof.
  intros Hgray cnts. unfold get_card_contours. rewrite Hgray. simpl.
  fold cnts. set (index_sort := sorted_reverse _ _).
  destruct (fill_sorted _ _ _ _ _) as [[cs hs]|e] eqn:Efill.
  - apply fill_sorted_contours in Efill. simpl in Efill.
    destruct (find_cards_contours cs hs (seq 0 (length cs)) [])
      as (sel & Hsub & Heq).
    assert (Hlen : length cs = length index_sort).
    { rewrite Efill, length_fmap. reflexivity. }
    exists (fst (find_cards cs hs (seq 0 (length cs)) [])),
           ((fun k => nth k index_sort 0%nat) <$> sel).
    split; [reflexivity|]. split.
    + pose proof (fmap_sublist (fun k => nth k index_sort 0%nat) _ _ Hsub)
        as Hsel.
      rewrite Hlen, nth_seq_fmap in Hsel. exact Hsel.
    + rewrite Heq. simpl. rewrite <- list_fmap_compose.
      apply list_fmap_ext. intros j k Hk. simpl.
      assert (Hin : k ∈ seq 0 (length cs)).
      { eapply elem_of_sublist; [|exact Hsub].
        eapply list_elem_of_lookup_2. exact Hk. }
      apply list_elem_of_In, in_seq in Hin.
      rewrite Efill.
      rewrite (nth_lookup _ k), list_lookup_fmap.
      destruct (index_sort !! k) as [i|] eqn:Ei.
      * simpl. rewrite (nth_lookup_Some _ _ _ _ Ei). reflexivity.
      * apply lookup_ge_None in Ei. lia.
  - exists [], []. split; [reflexivity|]. split; [apply sublist_nil_l|].
    reflexivity.
Qed.
End GetCardContoursFacts.

Section AreaFilter.
Context `{cv : OpenCV}.

Lemma is_card_true (size : Q) (approx : list point) (row : hier_row) :
  is_card size approx row = true <->
  (inject_Z CARD_MIN_AREA < size)%Q /\ (size < inject_Z CARD_MAX_AREA)%Q
  /\ length approx = 4%nat /\ h_parent row = -1.
Proof.
  unfold is_card. rewrite !andb_true_iff, !Qltb_lt, Nat.eqb_eq, Z.eqb_eq.
  tauto.
Qed.
End AreaFilter.

Lemma index_lookup {A} (l : list A) (i : nat) (a : A) :
  l !! i = Some a -> index l i = Ok a.
Proof. intros H. unfold index. rewrite H. reflexivity. Qed.

Section AreaFilterGeneral.
Context `{cv : OpenCV}.

Lemma fill_sorted_ok (cnts : list contour) (rows : list hier_row)
      (index_sort : list nat) :
  (forall i, i ∈ index_sort ->
             (i < length cnts)%nat /\ (i < length rows)%nat) ->
  forall cnts_sort hier_sort,
  exists cs hs,
    fill_sorted cnts (Some rows) index_sort cnts_sort hier_sort
    = Ok (cnts_sort ++ cs, hier_sort ++ hs)
    /\ length cs = length index_sort
    /\ length hs = length index_sort
    /\ forall k i, index_sort !! k = Some i ->
                   cs !! k = cnts !! i /\ hs !! k = rows !! i.
Proof.
  induction index_sort as [|i rest IH]; intros Hvalid cnts_sort hier_sort.
  - exists [], []. simpl. rewrite !app_nil_r.
    do 3 (split; [reflexivity|]). intros k i Hk. discriminate Hk.
  - destruct (Hvalid i) as [Hc Hr]; [left|].
    apply lookup_lt_is_Some in Hc as [c Hc].
    apply lookup_lt_is_Some in Hr as [row Hr].
    destruct (IH (fun j Hj => Hvalid j (list_elem_of_further _ _ _ Hj))
                 (cnts_sort ++ [c]) (hier_sort ++ [row]))
      as (cs & hs & Hrun & Hlc & Hlh & Hat).
    exists (c :: cs), (row :: hs). simpl.
    rewrite (index_lookup _ _ _ Hc), (index_lookup _ _ _ Hr). simpl.
    rewrite Hrun, <- !app_assoc. simpl.
    split; [reflexivity|]. split; [lia|]. split; [lia|].
    intros [|k] j Hk; simpl in Hk.
    + injection Hk as <-. simpl. auto.
    + simpl. apply Hat. exact Hk.
Qed.

Lemma find_cards_elem (cnts_sort : list contour) (hier_sort : list hier_row)
      (range : list nat) :
  (forall k, k ∈ range ->
             (k < length cnts_sort)%nat /\ (k < length hier_sort)%nat) ->
  forall card_info card,
    card ∈ fst (find_cards cnts_sort hier_sort range card_info)
    <-> card ∈ card_info
        \/ exists k c row,
            k ∈ range /\ cnts_sort !! k = Some c /\ hier_sort !! k = Some row
            /\ is_card (contourArea c)
                       (approxPolyDP c (POLY_ACC_CONST * arcLength c)) row
               = true
            /\ card = new_card c (approxPolyDP c (POLY_ACC_CONST * arcLength c)).
Proof.
  induction range as [|k0 rest IH]; intros Hvalid card_info card; simpl.
  - split; [auto|]. intros [H | (k & _ & _ & Hk & _)]; [exact H|].
    apply elem_of_nil in Hk. contradiction.
  - destruct (Hvalid k0) as [Hc Hr]; [left|].
    apply lookup_lt_is_Some in Hc as [c0 Hc].
    apply lookup_lt_is_Some in Hr as [row0 Hr].
    rewrite (index_lookup _ _ _ Hc), (index_lookup _ _ _ Hr).
    assert (Hrest : forall k, k ∈ rest ->
                      (k < length cnts_sort)%nat /\ (k < length hier_sort)%nat)
      by (intros k Hk; apply Hvalid; right; exact Hk).
    destruct (is_card _ _ row0) eqn:E; rewrite (IH Hrest); clear IH.
    + rewrite elem_of_app, list_elem_of_singleton. split.
      * intros [[H | ->] | (k & c & row & Hk & H)]; [auto | right | right].
        -- exists k0, c0, row0. repeat split; auto. left.
        -- exists k, c, row. split; [right; exact Hk | exact H].
      * intros [H | (k & c & row & Hk & Hck & Hrk & His & ->)]; [auto|].
        apply elem_of_cons in Hk as [-> | Hk].
        -- rewrite Hc in Hck. rewrite Hr in Hrk.
           injection Hck as <-. injection Hrk as <-. auto.
        -- right. exists k, c, row. auto.
    + split.
      * intros [H | (k & c & row & Hk & H)]; [auto | right].
        exists k, c, row. split; [right; exact Hk | exact H].
      * intros [H | (k & c & row & Hk & Hck & Hrk & His & ->)]; [auto|].
        apply elem_of_cons in Hk as [-> | Hk].
        -- rewrite Hc in Hck. rewrite Hr in Hrk.
           injection Hck as <-. injection Hrk as <-. congruence.
        -- right. exists k, c, row. auto.
Qed.

(** With a hierarchy row for every curve, the cards returned are exactly
    the curves that pass the test of lines 115-116. *)
Lemma get_card_contours_elem (image : color_image) (gray : gray_image)
      (cnts : list contour) (rows : list hier_row) :
  cvtColor_BGR2GRAY image = Ok gray ->
  findContours (threshold_binary (GaussianBlur gray) CARD_THRESH)
    = (cnts, Some rows) ->
  length rows = length cnts ->
  exists cards,
    get_card_contours image = Ok cards
    /\ forall card,
        card ∈ cards
        <-> exists i c row,
            cnts !! i = Some c /\ rows !! i = Some row
            /\ is_card (contourArea c)
                       (approxPolyDP c (POLY_ACC_CONST * arcLength c)) row
               = true
            /\ card = new_card c (approxPolyDP c (POLY_ACC_CONST * arcLength c)).
Proof.
  intros Hgray Hfind Hlen. unfold get_card_contours.
  rewrite Hgray. simpl. rewrite Hfind. simpl.
  set (index_sort := sorted_reverse (area_key cnts) (seq 0 (length cnts))).
  assert (Hperm : index_sort ≡ₚ seq 0 (length cnts))
    by apply sorted_reverse_Permutation.
  assert (Hvalid : forall i, i ∈ index_sort ->
                     (i < length cnts)%nat /\ (i < length rows)%nat).
  { intros i Hi. rewrite Hperm in Hi.
    apply list_elem_of_In, in_seq in Hi. lia. }
  destruct (fill_sorted_ok cnts rows index_sort Hvalid [] [])
    as (cs & hs & Hrun & Hlc & Hlh & Hat).
  rewrite Hrun. simpl. eexists. split; [reflexivity|].
  intros card. rewrite find_cards_elem.
  - split.
    + intros [H | (k & c & row & Hk & Hck & Hrk & His & ->)].
      * apply elem_of_nil in H. contradiction.
      * apply list_elem_of_In, in_seq in Hk.
        destruct (lookup_lt_is_Some_2 index_sort k) as [i Hi]; [lia|].
        destruct (Hat k i Hi) as [Hc Hr].
        exists i, c, row. rewrite <- Hc, <- Hr. auto.
    + intros (i & c & row & Hci & Hri & His & ->). right.
      assert (Hi : i ∈ index_sort).
      { rewrite Hperm. apply list_elem_of_In, in_seq.
        apply lookup_lt_Some in Hci. lia. }
      apply list_elem_of_lookup in Hi as [k Hk].
      destruct (Hat k i Hk) as [Hc Hr].
      exists k, c, row. rewrite Hc, Hr.
      split; [|auto].
      apply list_elem_of_In, in_seq. apply lookup_lt_Some in Hk. lia.
  - intros k Hk. apply list_elem_of_In, in_seq in Hk. lia.
Qed.
End AreaFilterGeneral.

(** C5, as the code has it.  The area bounds are exclusive.  When every
    curve has its hierarchy row, a card is returned exactly for the curves
    that are top-level, whose polygon has four vertices, and whose area lies
    strictly between [CARD_MIN_AREA] and [CARD_MAX_AREA]: an area equal to
    either bound, or beyond it, gives no card. *)
Theorem area_filter_exclusive `{cv : OpenCV}
        (image : color_image) (gray : gray_image)
        (cnts : list contour) (rows : list hier_row) :
  cvtColor_BGR2GRAY image = Ok gray ->
  findContours (threshold_binary (GaussianBlur gray) CARD_THRESH)
    = (cnts, Some rows) ->
  length rows = length cnts ->
  exists cards,
    get_card_contours image = Ok cards
    /\ forall card,
        card ∈ cards
        <-> exists i c row,
            cnts !! i = Some c /\ rows !! i = Some row
            /\ card = new_card c (approxPolyDP c (POLY_ACC_CONST * arcLength c))
            /\ (inject_Z CARD_MIN_AREA < contourArea c)%Q
            /\ (contourArea c < inject_Z CARD_MAX_AREA)%Q
            /\ length (approxPolyDP c (POLY_ACC_CONST * arcLength c)) = 4%nat
            /\ h_parent row = -1.
Proof.
  intros Hgray Hfind Hlen.
  destruct (get_card_contours_elem image gray cnts rows Hgray Hfind Hlen)
    as (cards & Hret & Helem).
  exists cards. split; [exact Hret|]. intros card. rewrite Helem.
  split.
  - intros (i & c & row & Hc & Hr & His & ->).
    apply is_card_true in His as (Hlo & Hhi & H4 & Hp).
    exists i, c, row. auto 10.
  - intros (i & c & row & Hc & Hr & -> & Hlo & Hhi & H4 & Hp).
    exists i, c, row. repeat (split; [assumption|]).
    split; [|reflexivity]. apply is_card_true. auto.
Qed.

Lemma area_filter_exclusive_witness :
  let cv := cv_fixed [rect 0 0 80 60] (Some [top_level]) in
  exists cards,
    get_card_contours one_pixel = Ok cards
    /\ forall card,
        card ∈ cards
        <-> exists i c row,
            [rect 0 0 80 60] !! i = Some c /\ [top_level] !! i = Some row
            /\ card = new_card c (approxPolyDP c (POLY_ACC_CONST * arcLength c))
            /\ (inject_Z CARD_MIN_AREA < contourArea c)%Q
            /\ (contourArea c < inject_Z CARD_MAX_AREA)%Q
            /\ length (approxPolyDP c (POLY_ACC_CONST * arcLength c)) = 4%nat
            /\ h_parent row = -1.
Proof.
  intros cv.
  apply (area_filter_exclusive (cv := cv) one_pixel [[255]]
           [rect 0 0 80 60] [top_level]);
    reflexivity.
Defined.

(** A top-level four-vertex curve of area exactly [CARD_MIN_AREA], and one
    of area exactly [CARD_MAX_AREA], is not accepted. *)
Lemma area_bounds_not_accepted :
  ((contourArea (rect 10 10 70 50) == inject_Z CARD_MIN_AREA)%Q
   /\ get_card_contours (cv := cv_fixed [rect 10 10 70 50] (Some [top_level]))
                        (scene 10 10 70 50) = Ok [])
  /\ ((contourArea (rect 10 10 100 60) == inject_Z CARD_MAX_AREA)%Q
      /\ get_card_contours
           (cv := cv_fixed [rect 10 10 100 60] (Some [top_level]))
           (scene 10 10 100 60) = Ok []).
Proof. split; split; vm_compute; reflexivity. Qed.

(** C7.  The cards returned are the curves [cnts[i]] for a list [idx] of
    positions that is in descending order of area, positions of equal area
    in ascending order: greatest area first, ties in detection order. *)
Theorem get_card_contours_order `{cv : OpenCV}
        (image : color_image) (gray : gray_image) :
  cvtColor_BGR2GRAY image = Ok gray ->
  let cnts := fst (findContours
                     (threshold_binary (GaussianBlur gray) CARD_THRESH)) in
  exists cards idx,
    get_card_contours image = Ok cards
    /\ card.contour <$> cards = (fun i => nth i cnts []) <$> idx
    /\ StronglySorted (descending (area_key cnts) lt) idx
    /\ StronglySorted
         (fun a b => (contourArea (card.contour b)
                      <= contourArea (card.contour a))%Q) cards.
Proof.
  intros Hgray cnts.
  destruct (get_card_contours_selection image gray Hgray)
    as (cards & idx & Hret & Hsub & Hcnt).
  fold cnts in Hsub, Hcnt.
  assert (Hidx : StronglySorted (descending (area_key cnts) lt) idx).
  { eapply StronglySorted_sublist; [exact Hsub|].
    apply sorted_reverse_sorted, seq_sorted. }
  exists cards, idx. repeat (split; [assumption|]).
  apply (StronglySorted_fmap_inv card.contour
           (fun a b => (contourArea b <= contourArea a)%Q)).
  rewrite Hcnt.
  apply (StronglySorted_fmap _ (descending (area_key cnts) lt)); [|exact Hidx].
  intros i j [Hlt | [Heq _]]; unfold area_key in *.
  - apply Qlt_le_weak. exact Hlt.
  - rewrite Heq. apply Qle_refl.
Qed.

Lemma get_card_contours_order_witness :
  let cv := cv_fixed [rect 0 0 70 60; rect 100 0 80 60; rect 200 0 70 60]
                     (Some [top_level; top_level; top_level]) in
  exists cards idx,
    get_card_contours one_pixel = Ok cards
    /\ card.contour <$> cards
       = (fun i => nth i [rect 0 0 70 60; rect 100 0 80 60; rect 200 0 70 60] [])
           <$> idx
    /\ StronglySorted
         (descending
            (area_key [rect 0 0 70 60; rect 100 0 80 60; rect 200 0 70 60])
            lt) idx
    /\ StronglySorted
         (fun a b => (contourArea (card.contour b)
                      <= contourArea (card.contour a))%Q) cards.
Proof.
  intros cv.
  apply (get_card_contours_order (cv := cv) one_pixel [[255]]).
  reflexivity.
Defined.

(** C8.  When no curve is found, the result is the empty list and no
    exception leaves the function. *)
Theorem get_card_contours_none `{cv : OpenCV}
        (image : color_image) (gray : gray_image) :
  cvtColor_BGR2GRAY image = Ok gray ->
  fst (findContours (threshold_binary (GaussianBlur gray) CARD_THRESH)) = [] ->
  get_card_contours image = Ok [].
Proof.
  intros Hgray Hnone. unfold get_card_contours.
  rewrite Hgray. simpl. rewrite Hnone. reflexivity.
Qed.

Lemma get_card_contours_none_witness :
  get_card_contours (cv := cv_fixed [] None) one_pixel = Ok [].
Proof.
  apply (get_card_contours_none (cv := cv_fixed [] None) one_pixel [[255]]);
    reflexivity.
Defined.

(** ** Slices, bounding boxes and [cv2.resize] *)

Lemma clip_nonneg (n : nat) (a : Z) :
  0 <= a -> clip n a = Nat.min (Z.to_nat a) n.
Proof.
  intros H. unfold clip.
  replace (a <? 0) with false by (symmetry; apply Z.ltb_ge; lia).
  reflexivity.
Qed.

Lemma length_slice {A} (l : list A) (a b : Z) :
  0 <= a -> 0 <= b ->
  length (slice l a b)
  = (Nat.min (Z.to_nat b) (length l) - Nat.min (Z.to_nat a) (length l))%nat.
Proof.
  intros Ha Hb. unfold slice.
  rewrite length_take, length_drop, !clip_nonneg by assumption. lia.
Qed.

Lemma slice_Forall {A} (P : A -> Prop) (l : list A) (a b : Z) :
  Forall P l -> Forall P (slice l a b).
Proof. intros H. unfold slice. apply Forall_take, Forall_drop, H. Qed.

Lemma shape_slice2 {A} (img : list (list A)) (rows cols : nat)
      (r0 r1 c0 c1 : Z) :
  shape img rows cols -> 0 <= r0 -> 0 <= r1 -> 0 <= c0 -> 0 <= c1 ->
  shape (slice2 img r0 r1 c0 c1)
        (Nat.min (Z.to_nat r1) rows - Nat.min (Z.to_nat r0) rows)
        (Nat.min (Z.to_nat c1) cols - Nat.min (Z.to_nat c0) cols).
Proof.
  intros [Hr Hc] ? ? ? ?. unfold slice2. split.
  - rewrite length_fmap, length_slice, Hr by assumption. reflexivity.
  - apply Forall_fmap. apply slice_Forall.
    eapply Forall_impl; [exact Hc|]. intros row Hrow. simpl.
    rewrite length_slice, Hrow by assumption. reflexivity.
Qed.

Lemma corner_crop_shape (img : gray_image) :
  shape img 300 200 -> shape (corner_crop img) 70 45.
Proof.
  intros H. unfold corner_crop.
  apply (shape_slice2 img 300 200 0 CORNER_HEIGHT 0 CORNER_WIDTH H);
    unfold CORNER_HEIGHT, CORNER_WIDTH; lia.
Qed.

Lemma threshold_binary_shape (src : gray_image) (level : Z) (rows cols : nat) :
  shape src rows cols -> shape (threshold_binary src level) rows cols.
Proof. apply shape_fmap. Qed.

Lemma foldl_min_le (l : list Z) : forall a, foldl Z.min a l <= a.
Proof.
  induction l as [|v l IH]; intros a; simpl; [lia|].
  specialize (IH (Z.min a v)). lia.
Qed.

Lemma foldl_max_ge (l : list Z) : forall a, a <= foldl Z.max a l.
Proof.
  induction l as [|v l IH]; intros a; simpl; [lia|].
  specialize (IH (Z.max a v)). lia.
Qed.

Lemma foldl_min_bounds (lo hi : Z) (l : list Z) : forall a,
  lo <= a < hi -> Forall (fun v => lo <= v < hi) l ->
  lo <= foldl Z.min a l < hi.
Proof.
  induction l as [|v l IH]; intros a Ha Hl; simpl; [exact Ha|].
  apply Forall_cons in Hl as [Hv Hl]. apply IH; [lia | exact Hl].
Qed.

Lemma boundingRect_inside (c : contour) (rows cols : nat) :
  c <> [] ->
  Forall (fun p => 0 <= px p < Z.of_nat cols /\ 0 <= py p < Z.of_nat rows) c ->
  exists x y w h,
    boundingRect c = Ok (x, y, w, h)
    /\ 0 <= x < Z.of_nat cols /\ 0 <= y < Z.of_nat rows /\ 1 <= w /\ 1 <= h.
Proof.
  destruct c as [|p c]; [congruence|]. intros _ Hin.
  apply Forall_cons in Hin as [[Hx Hy] Hin]. simpl.
  do 4 eexists. split; [reflexivity|].
  pose proof (foldl_min_le (px <$> c) (px p)).
  pose proof (foldl_max_ge (px <$> c) (px p)).
  pose proof (foldl_min_le (py <$> c) (py p)).
  pose proof (foldl_max_ge (py <$> c) (py p)).
  assert (0 <= foldl Z.min (px p) (px <$> c) < Z.of_nat cols).
  { apply foldl_min_bounds; [exact Hx|]. apply Forall_fmap.
    eapply Forall_impl; [exact Hin|]. intros q [Hq _]. exact Hq. }
  assert (0 <= foldl Z.min (py p) (py <$> c) < Z.of_nat rows).
  { apply foldl_min_bounds; [exact Hy|]. apply Forall_fmap.
    eapply Forall_impl; [exact Hin|]. intros q [_ Hq]. exact Hq. }
  repeat split; lia.
Qed.

Lemma boundingRect_nonempty (c : contour) :
  c <> [] -> exists x y w h, boundingRect c = Ok (x, y, w, h).
Proof.
  destruct c as [|p c]; [congruence|]. intros _. simpl. eauto.
Qed.

Lemma center_of_nonempty (pts : list point) :
  pts <> [] -> exists cx cy, center_of pts = Ok (cx, cy).
Proof.
  destruct pts as [|p pts]; [congruence|]. intros _. simpl. eauto.
Qed.

(** The part of an image under a bounding box that starts inside it is not
    empty. *)
Lemma slice2_total {A} (img : list (list A)) (rows cols : nat) (x y w h : Z) :
  shape img rows cols ->
  0 <= x < Z.of_nat cols -> 0 <= y < Z.of_nat rows -> 1 <= w -> 1 <= h ->
  total (slice2 img y (y + h) x (x + w)) <> 0%nat.
Proof.
  intros Hs Hx Hy Hw Hh.
  eapply shape_total.
  - apply (shape_slice2 img rows cols y (y + h) x (x + w) Hs); lia.
  - lia.
  - lia.
Qed.

Section ResizeFacts.
Context `{cv : OpenCV}.

Lemma resize_shape (src : gray_image) :
  total src <> 0%nat ->
  exists glyph, resize src (RANK_WIDTH, RANK_HEIGHT) = Ok glyph
                /\ shape glyph 125 70.
Proof.
  intros H. unfold resize. rewrite (total_zero_test _ H).
  eexists. split; [reflexivity|].
  apply (shape_table (fun x y => resize_pixel src 70 125 x y) 125 70).
Qed.

Lemma threshold_otsu_shape (src : gray_image) (rows cols : nat) :
  shape src rows cols -> shape (threshold_otsu src) rows cols.
Proof. apply threshold_binary_shape. Qed.
End ResizeFacts.

(** ** [process_card] *)

Lemma bind_ok {A B} (m : M A) (k : A -> M B) (σ σ' : store) (a : A) :
  m σ = (σ', Ok a) -> (m ≫= k) σ = k a σ'.
Proof. intros H. unfold mbind, M_bind. rewrite H. reflexivity. Qed.

Lemma bind_raise {A B} (m : M A) (k : A -> M B) (σ σ' : store) (e : exn) :
  m σ = (σ', Raise e) -> (m ≫= k) σ = (σ', Raise e).
Proof. intros H. unfold mbind, M_bind. rewrite H. reflexivity. Qed.

Lemma getattr_insert {A} (l : loc) (attr : card.t -> A) (σ : store)
      (c : card.t) :
  getattr l attr (<[l := c]> σ) = (<[l := c]> σ, Ok (attr c)).
Proof. unfold getattr. rewrite lookup_insert_eq. reflexivity. Qed.

Lemma setattr_insert (l : loc) (set : card.t -> card.t) (σ : store)
      (c : card.t) :
  setattr l set (<[l := c]> σ) = (<[l := set c]> σ, Ok tt).
Proof.
  unfold setattr. rewrite lookup_insert_eq, insert_insert_eq. reflexivity.
Qed.








Section ProcessCardFacts.
Context `{cv : OpenCV}.


(** What a run on a well-formed card does, step by step. *)
Lemma process_card_returns (σ : store) (l : loc) (image : color_image)
      (c : card.t) :
  card.contour c <> [] ->
  length (card.corner_pts c) = 4%nat ->
  total image <> 0%nat ->
  contours_inside ->
  exists x y w h cx cy warp,
    boundingRect (card.contour c) = Ok (x, y, w, h)
    /\ center_of (card.corner_pts c) = Ok (cx, cy)
    /\ flattener image (card.corner_pts c) w h = Ok warp
    /\ shape warp 300 200
    /\ let c1 := card.set_img warp
                   (card.set_center [cx; cy]
                      (card.set_height h (card.set_width w c))) in
       let thresh := threshold_otsu (corner_crop warp) in
       match sort_rank_cnts (fst (findContours thresh)) with
       | [] =>
           process_card l image (<[l := c]> σ) = (<[l := c1]> σ, Ok l)
       | g :: _ =>
           exists x1 y1 w1 h1 glyph,
             boundingRect g = Ok (x1, y1, w1, h1)
             /\ resize (slice2 thresh y1 (y1 + h1) x1 (x1 + w1))
                       (RANK_WIDTH, RANK_HEIGHT) = Ok glyph
             /\ shape glyph 125 70
             /\ process_card l image (<[l := c]> σ)
                = (<[l := card.set_rank_img glyph c1]> σ, Ok l)
       end.
Proof.
  intros Hcnt Hpts Himg Hinside.
  destruct (boundingRect_nonempty _ Hcnt) as (x & y & w & h & Hbox).
  assert (Hne : card.corner_pts c <> []).
  { intros E. rewrite E in Hpts. discriminate. }
  destruct (center_of_nonempty _ Hne) as (cx & cy & Hcen).
  destruct (flattener_returns image (card.corner_pts c) w h Hpts Himg)
    as (warp & Hflat & Hwarp).
  exists x, y, w, h, cx, cy, warp. repeat (split; [assumption|]).
  intros c1 thresh.
  assert (Hthresh : shape thresh 70 45).
  { apply threshold_otsu_shape, corner_crop_shape, Hwarp. }
  assert (Hrun :
            process_card l image (<[l := c]> σ)
            = ((match sort_rank_cnts (fst (findContours thresh)) with
                | g :: _ =>
                    glyph ← lift (rank_glyph thresh g);
                    setattr l (card.set_rank_img glyph)
                | [] => mret tt
                end) ≫= (fun _ => mret l)) (<[l := c1]> σ)).
  { unfold process_card.
    erewrite bind_ok by apply getattr_insert.
    erewrite bind_ok by (unfold lift; rewrite Hbox; reflexivity).
    cbv beta iota.
    erewrite bind_ok by apply setattr_insert.
    erewrite bind_ok by apply setattr_insert.
    erewrite bind_ok by apply getattr_insert.
    erewrite bind_ok by (unfold lift; simpl; rewrite Hcen; reflexivity).
    cbv beta iota.
    erewrite bind_ok by apply setattr_insert.
    erewrite bind_ok by (unfold lift; simpl; rewrite Hflat; reflexivity).
    erewrite bind_ok by apply setattr_insert.
    erewrite bind_ok by apply getattr_insert.
    reflexivity. }
  destruct (sort_rank_cnts (fst (findContours thresh))) as [|g rest] eqn:Es.
  - rewrite Hrun. reflexivity.
  - destruct (sorted_reverse_head contourArea _ g rest Es) as [Hg _].
    destruct (Hinside thresh 70%nat 45%nat g Hthresh) as [Hgne Hgin];
      [lia | lia | exact Hg |].
    destruct (boundingRect_inside g 70 45 Hgne Hgin)
      as (x1 & y1 & w1 & h1 & Hbox1 & Hx1 & Hy1 & Hw1 & Hh1).
    destruct (resize_shape (slice2 thresh y1 (y1 + h1) x1 (x1 + w1)))
      as (glyph & Hres & Hglyph).
    { eapply slice2_total; eauto. }
    exists x1, y1, w1, h1, glyph. repeat (split; [assumption|]).
    rewrite Hrun.
    unfold rank_glyph. rewrite Hbox1. simpl Py.bind.
    assert (Hg2 : lift (a ← Ok (x1, y1, w1, h1);
                        (let '(x1, y1, w1, h1) := a in
                         resize (slice2 thresh y1 (y1 + h1) x1 (x1 + w1))
                                (RANK_WIDTH, RANK_HEIGHT)))
                       (<[l := c1]> σ)
                  = (<[l := c1]> σ, Ok glyph)).
    { unfold lift. simpl. rewrite Hres. reflexivity. }
    erewrite bind_ok; [reflexivity|].
    erewrite bind_ok by exact Hg2.
    apply setattr_insert.
Qed.
End ProcessCardFacts.

(** [cv_fixed] with the single curve [[(0,0)]] keeps the promise of
    [contours_inside]. *)
Lemma cv_fixed_origin_inside :
  contours_inside (cv := cv_fixed [[(0, 0)]] (Some [top_level])).
Proof.
  intros img rows cols c _ Hr Hc Hin. simpl in Hin.
  apply list_elem_of_singleton in Hin as ->.
  split; [discriminate|]. repeat constructor; simpl; lia.
Qed.






(** ** [get_card_rank] *)

(** C1.  Every call of [get_card_rank] raises [NameError] at the first name
    of its return statement: no score is computed, no template is selected,
    and an empty glyph is not answered with the "Unknown" sentinel. *)
Theorem get_card_rank_raises (card_img : gray_image) :
  get_card_rank card_img = Raise (NameError "rank_image").
Proof. reflexivity. Qed.

(** ** [load_ranks] *)

(** C9, as the code has it.  [load_ranks] never fails: whatever the files,
    it returns the thirteen ranks in order, each with what [cv2.imread]
    gave for its file, which is [None] for a missing or unreadable one. *)
Theorem load_ranks_total (imread : string -> option gray_image)
        (path : string) :
  load_ranks imread path
  = Ok ((fun name => rank.mk name (imread (path_join path (name ++ ".jpg"))))
          <$> rank_names).
Proof. reflexivity. Qed.

(** With every file missing, [load_ranks] still returns thirteen ranks, none
    of which has an image. *)
Lemma load_ranks_missing_files :
  no_files "card_images/Ace.jpg" = None
  /\ exists ranks,
      load_ranks no_files "card_images" = Ok ranks
      /\ length ranks = 13%nat
      /\ Forall (fun r => rank.img r = None) ranks.
Proof.
  split; [reflexivity|]. eexists. split; [reflexivity|].
  split; [reflexivity|]. repeat constructor.
Qed.

(** ** The orientation tests in binary64 *)

(** For bounding boxes up to 128 pixels high and 256 wide, the tests as
    Python evaluates them in double precision give the answers of the
    exact comparisons used in [flattener_rect]. *)
Lemma tests_binary64_exact :
  forallb (fun h => forallb (fun w => tests_agree (Z.of_nat w) (Z.of_nat h))
                            (seq 0 257))
          (seq 1 128) = true.
Proof. vm_compute. reflexivity. Qed.

(** * Further properties *)

(** ** [get_card_contours]: what the cards look like *)

Section CardsReturned.
Context `{cv : OpenCV}.

Lemma new_card_fresh (c : contour) (row : hier_row) :
  is_card (contourArea c) (approxPolyDP c (POLY_ACC_CONST * arcLength c)) row
  = true ->
  fresh_card (new_card c (approxPolyDP c (POLY_ACC_CONST * arcLength c))).
Proof.
  intros H. apply is_card_true in H as (Hlo & Hhi & H4 & _).
  unfold fresh_card. simpl. repeat split; assumption.
Qed.

Lemma find_cards_fresh (cnts_sort : list contour) (hier_sort : list hier_row)
      (range : list nat) :
  forall card_info,
    Forall fresh_card card_info ->
    Forall fresh_card (fst (find_cards cnts_sort hier_sort range card_info)).
Proof.
  induction range as [|i rest IH]; intros card_info Hacc; simpl; [exact Hacc|].
  destruct (index cnts_sort i) as [c|e]; [|exact Hacc].
  destruct (index hier_sort i) as [row|e]; [|exact Hacc].
  destruct (is_card _ _ row) eqn:E; apply IH; [|exact Hacc].
  apply Forall_app. split; [exact Hacc|].
  constructor; [|constructor]. eapply new_card_fresh. exact E.
Qed.

(** Every card returned has exactly four corner points, the polygon of its
    curve, an area strictly between the bounds, and untouched defaults
    elsewhere, whatever the hierarchy. *)
Theorem get_card_contours_fresh (image : color_image) (gray : gray_image) :
  cvtColor_BGR2GRAY image = Ok gray ->
  exists cards,
    get_card_contours image = Ok cards /\ Forall fresh_card cards.
Proof.
  intros Hgray. unfold get_card_contours. rewrite Hgray. simpl.
  destruct (fill_sorted _ _ _ _ _) as [[cs hs]|e].
  - eexists. split; [reflexivity|]. apply find_cards_fresh. constructor.
  - exists []. split; [reflexivity | constructor].
Qed.

(** No curve is reported twice: the cards are the curves at pairwise
    distinct positions of the list found, so there are at most as many
    cards as curves. *)
Theorem get_card_contours_distinct (image : color_image) (gray : gray_image) :
  cvtColor_BGR2GRAY image = Ok gray ->
  let cnts := fst (findContours
                     (threshold_binary (GaussianBlur gray) CARD_THRESH)) in
  exists cards idx,
    get_card_contours image = Ok cards
    /\ card.contour <$> cards = (fun i => nth i cnts []) <$> idx
    /\ NoDup idx
    /\ Forall (fun i => (i < length cnts)%nat) idx
    /\ (length cards <= length cnts)%nat.
Proof.
  intros Hgray cnts.
  destruct (get_card_contours_selection image gray Hgray)
    as (cards & idx & Hret & Hsub & Hcnt).
  fold cnts in Hsub, Hcnt.
  pose proof (sorted_reverse_Permutation (area_key cnts) (seq 0 (length cnts)))
    as Hperm.
  exists cards, idx. split; [exact Hret|]. split; [exact Hcnt|].
  split; [|split].
  - eapply sublist_NoDup; [|exact Hsub]. rewrite Hperm. apply NoDup_seq.
  - apply Forall_forall. intros i Hi.
    eapply elem_of_sublist in Hi; [|exact Hsub].
    rewrite Hperm in Hi. apply list_elem_of_In, in_seq in Hi. lia.
  - apply sublist_length in Hsub.
    rewrite Hperm, length_seq in Hsub.
    apply (f_equal length) in Hcnt. rewrite !length_fmap in Hcnt. lia.
Qed.

Lemma fill_sorted_raises (cnts : list contour) (hier : option (list hier_row))
      (index_sort : list nat) :
  (exists i, i ∈ index_sort
             /\ match hier with
                | None => True
                | Some rows => rows !! i = None
                end) ->
  forall cnts_sort hier_sort,
  exists e, fill_sorted cnts hier index_sort cnts_sort hier_sort = Raise e.
Proof.
  induction index_sort as [|i0 rest IH]; intros (i & Hi & Hbad) cs hs.
  - apply elem_of_nil in Hi. contradiction.
  - simpl. destruct (index cnts i0) as [c|e]; simpl; [|eauto].
    destruct hier as [rows|]; simpl; [|eauto].
    unfold index at 1. destruct (rows !! i0) as [row|] eqn:Er; simpl; [|eauto].
    apply IH. exists i. split; [|exact Hbad].
    apply elem_of_cons in Hi as [-> | Hi]; [congruence | exact Hi].
Qed.

(** When curves are found but the hierarchy is absent, or has fewer rows
    than there are curves, the exception is swallowed before any card is
    made: the result is the empty list. *)
Theorem get_card_contours_bad_hierarchy (image : color_image)
        (gray : gray_image) (cnts : list contour)
        (hier : option (list hier_row)) :
  cvtColor_BGR2GRAY image = Ok gray ->
  findContours (threshold_binary (GaussianBlur gray) CARD_THRESH)
    = (cnts, hier) ->
  cnts <> [] ->
  match hier with
  | None => True
  | Some rows => (length rows < length cnts)%nat
  end ->
  get_card_contours image = Ok [].
Proof.
  intros Hgray Hfind Hne Hbad. unfold get_card_contours.
  rewrite Hgray. simpl. rewrite Hfind. simpl.
  set (index_sort := sorted_reverse (area_key cnts) (seq 0 (length cnts))).
  assert (Hperm : index_sort ≡ₚ seq 0 (length cnts))
    by apply sorted_reverse_Permutation.
  destruct (fill_sorted_raises cnts hier index_sort) with (cnts_sort := @nil contour)
    (hier_sort := @nil hier_row) as [e He].
  - destruct hier as [rows|].
    + exists (length rows). split.
      * rewrite Hperm. apply list_elem_of_In, in_seq. lia.
      * apply lookup_ge_None. lia.
    + destruct cnts as [|c cnts]; [congruence|].
      exists 0%nat. split; [|exact I].
      rewrite Hperm. apply list_elem_of_In, in_seq. simpl. lia.
  - rewrite He. reflexivity.
Qed.

(** The [try] block starts after the conversion to gray: an empty image
    makes the function raise, and nothing else does. *)
Theorem get_card_contours_raises_iff (image : color_image) :
  (total image = 0%nat -> get_card_contours image = Raise CvError)
  /\ (total image <> 0%nat ->
      exists cards, get_card_contours image = Ok cards).
Proof.
  split; intros H; unfold get_card_contours, cvtColor_BGR2GRAY.
  - rewrite H. reflexivity.
  - rewrite (total_zero_test _ H). simpl.
    destruct (fill_sorted _ _ _ _ _) as [[cs hs]|e]; eauto.
Qed.
End CardsReturned.

Lemma get_card_contours_fresh_witness :
  exists cards,
    get_card_contours (cv := cv_scene) (scene 10 10 70 60) = Ok cards
    /\ Forall (fresh_card (cv := cv_scene)) cards.
Proof.
  apply (get_card_contours_fresh (cv := cv_scene)
           (scene 10 10 70 60) (scene_gray 10 10 70 60)).
  vm_compute. reflexivity.
Defined.

Lemma get_card_contours_distinct_witness :
  let cv := cv_fixed [rect 0 0 70 60; rect 100 0 80 60; rect 200 0 70 60]
                     (Some [top_level; top_level; top_level]) in
  let cnts := [rect 0 0 70 60; rect 100 0 80 60; rect 200 0 70 60] in
  exists cards idx,
    get_card_contours one_pixel = Ok cards
    /\ card.contour <$> cards = (fun i => nth i cnts []) <$> idx
    /\ NoDup idx
    /\ Forall (fun i => (i < length cnts)%nat) idx
    /\ (length cards <= length cnts)%nat.
Proof.
  intros cv cnts.
  apply (get_card_contours_distinct (cv := cv) one_pixel [[255]]).
  reflexivity.
Defined.

Lemma get_card_contours_bad_hierarchy_witness :
  get_card_contours (cv := cv_fixed [rect 10 10 70 60] None)
                    (scene 10 10 70 60) = Ok [].
Proof.
  apply (get_card_contours_bad_hierarchy
           (cv := cv_fixed [rect 10 10 70 60] None)
           (scene 10 10 70 60) (scene_gray 10 10 70 60)
           [rect 10 10 70 60] None);
    [vm_compute; reflexivity | reflexivity | discriminate | exact I].
Defined.

Lemma get_card_contours_raises_iff_witness :
  get_card_contours (cv := cv_fixed [] None) [] = Raise CvError.
Proof.
  apply (get_card_contours_raises_iff (cv := cv_fixed [] None) []).
  reflexivity.
Defined.

(** ** [flattener]: the source quadrilateral *)

Lemma bool_eq_true_iff (a b : bool) : (a = true <-> b = true) -> a = b.
Proof. destruct a, b; intuition congruence. Qed.

(** The four exact tests on a box scaled by [k > 0] are the tests on the
    box. *)
Lemma tests_scale (k w h : Z) :
  0 < k ->
  Qle_bool (inject_Z (k * w)) (0.8 * inject_Z (k * h))
  = Qle_bool (inject_Z w) (0.8 * inject_Z h)
  /\ Qle_bool (1.2 * inject_Z (k * h)) (inject_Z (k * w))
     = Qle_bool (1.2 * inject_Z h) (inject_Z w)
  /\ Qltb (0.8 * inject_Z (k * h)) (inject_Z (k * w))
     = Qltb (0.8 * inject_Z h) (inject_Z w)
  /\ Qltb (inject_Z (k * w)) (1.2 * inject_Z (k * h))
     = Qltb (inject_Z w) (1.2 * inject_Z h).
Proof.
  intros Hk. repeat split; apply bool_eq_true_iff.
  - rewrite !Qle_bool_iff, !vertical_test. nia.
  - rewrite !Qle_bool_iff, !horizontal_test. nia.
  - rewrite !Qltb_lt, !above_vertical_test. nia.
  - rewrite !Qltb_lt, !below_horizontal_test. nia.
Qed.

Lemma flattener_rect_scale (pts : list point) (k w h : Z) :
  0 < k -> flattener_rect pts (k * w) (k * h) = flattener_rect pts w h.
Proof.
  intros Hk. destruct (tests_scale k w h Hk) as (H1 & H2 & H3 & H4).
  unfold flattener_rect. rewrite H1, H2, H3, H4. reflexivity.
Qed.

Lemma tests_agree_eq (w h : Z) :
  tests_agree w h = true -> tests_binary64 w h = tests_exact w h.
Proof.
  unfold tests_agree.
  destruct (tests_binary64 w h) as [[[a b] c] d].
  destruct (tests_exact w h) as [[[a' b'] c'] d'].
  rewrite !andb_true_iff. intros [[[H1 H2] H3] H4].
  apply Bool.eqb_prop in H1, H2, H3, H4. congruence.
Qed.

(** On boxes up to 256 wide and 128 high the tests evaluated in binary64
    are the exact ones. *)
Lemma tests_binary64_in_range (w h : Z) :
  0 <= w <= 256 -> 1 <= h <= 128 ->
  tests_binary64 w h = tests_exact w h.
Proof.
  intros Hw Hh. apply tests_agree_eq.
  pose proof tests_binary64_exact as H.
  rewrite List.forallb_forall in H.
  specialize (H (Z.to_nat h)). rewrite List.forallb_forall in H.
  specialize (fun Hin => H Hin (Z.to_nat w)).
  rewrite !Z2Nat.id in H by lia.
  apply H; apply in_seq; lia.
Qed.

Lemma tests_exact_scale (k w h : Z) :
  0 < k -> tests_exact (k * w) (k * h) = tests_exact w h.
Proof.
  intros Hk. destruct (tests_scale k w h Hk) as (H1 & H2 & H3 & H4).
  unfold tests_exact. rewrite H1, H2, H3, H4. reflexivity.
Qed.

(** Only the aspect ratio of the bounding box matters, for boxes of the
    sizes on which the binary64 tests have been compared with the exact
    ones: when the scaled box is at most 256 wide and 128 high, scaling
    [w] and [h] by the same positive factor gives the same image, and the
    four tests as Python evaluates them in binary64 give the same
    answers. *)
Theorem flattener_scale `{cv : OpenCV} (image : color_image)
        (pts : list point) (k w h : Z) :
  0 < k -> 0 <= w -> 1 <= h -> k * w <= 256 -> k * h <= 128 ->
  flattener image pts (k * w) (k * h) = flattener image pts w h
  /\ tests_binary64 (k * w) (k * h) = tests_binary64 w h.
Proof.
  intros Hk Hw Hh Hkw Hkh. split.
  - unfold flattener. rewrite (flattener_rect_scale pts k w h Hk).
    reflexivity.
  - rewrite !tests_binary64_in_range by nia.
    apply tests_exact_scale. exact Hk.
Qed.

Lemma flattener_scale_witness :
  flattener (cv := cv_fixed [] None) one_pixel upright_quad (2 * 55) (2 * 60)
  = flattener (cv := cv_fixed [] None) one_pixel upright_quad 55 60
  /\ tests_binary64 (2 * 55) (2 * 60) = tests_binary64 55 60.
Proof.
  apply (flattener_scale (cv := cv_fixed [] None) one_pixel upright_quad
           2 55 60); lia.
Defined.

(** On four points the zero-initialised rectangle is always overwritten:
    whatever [w] and [h], the four corners handed to the perspective
    transform are points of the input. *)
Theorem flattener_rect_from_input (pts : list point) (w h : Z) :
  length pts = 4%nat ->
  exists a b c d,
    flattener_rect pts w h = Ok [a; b; c; d]
    /\ a ∈ pts /\ b ∈ pts /\ c ∈ pts /\ d ∈ pts.
Proof.
  intros Hlen.
  assert (Hne : pts <> []) by (intros ->; discriminate).
  destruct (flattener_rect_extrema pts w h Hne)
    as (tl & tr & br & bl & [Htl _] & [Htr _] & [Hbr _] & [Hbl _] & ->).
  destruct (four_points pts Hlen) as (p0 & p1 & p2 & p3 & ->).
  cbv zeta.
  assert (H0 : p0 ∈ [p0; p1; p2; p3]) by (left).
  assert (H1 : p1 ∈ [p0; p1; p2; p3]) by (right; left).
  assert (H2 : p2 ∈ [p0; p1; p2; p3]) by (do 2 right; left).
  assert (H3 : p3 ∈ [p0; p1; p2; p3]) by (do 3 right; left).
  destruct (Z_le_gt_dec (5 * w) (4 * h)) as [Hv | Hv];
    destruct (Z_le_gt_dec (6 * h) (5 * w)) as [Hz | Hz];
    decide_tests; simpl; rewrite ?flattener_diamond_total;
    try destruct (py p1 <=? py p3); simpl; eauto 10.
Qed.

Lemma flattener_rect_from_input_witness :
  exists a b c d,
    flattener_rect upright_quad 0 0 = Ok [a; b; c; d]
    /\ a ∈ upright_quad /\ b ∈ upright_quad
    /\ c ∈ upright_quad /\ d ∈ upright_quad.
Proof. apply (flattener_rect_from_input upright_quad 0 0). reflexivity. Defined.

(** In the diamond case every corner is used exactly once. *)
Theorem flattener_diamond_permutation (p0 p1 p2 p3 : point) (w h : Z) :
  (0.8 * inject_Z h < inject_Z w)%Q ->
  (inject_Z w < 1.2 * inject_Z h)%Q ->
  exists temp_rect,
    flattener_rect [p0; p1; p2; p3] w h = Ok temp_rect
    /\ temp_rect ≡ₚ [p0; p1; p2; p3].
Proof.
  intros Hlo Hhi.
  apply above_vertical_test in Hlo. apply below_horizontal_test in Hhi.
  destruct (flattener_rect_extrema [p0; p1; p2; p3] w h)
    as (tl & tr & br & bl & _ & _ & _ & _ & ->); [discriminate|].
  cbv zeta. decide_tests. simpl. rewrite flattener_diamond_total.
  destruct (py p1 <=? py p3); eexists; (split; [reflexivity|]); simpl.
  - rewrite (Permutation_swap p1 p0). do 2 apply Permutation_skip.
    apply Permutation_swap.
  - apply Permutation_skip.
    change [p3; p2; p1] with (rev [p1; p2; p3]).
    symmetry. apply Permutation_rev.
Qed.

Lemma flattener_diamond_permutation_witness :
  exists temp_rect,
    flattener_rect [(60, 12); (10, 10); (8, 88); (62, 90)] 60 60 = Ok temp_rect
    /\ temp_rect ≡ₚ [(60, 12); (10, 10); (8, 88); (62, 90)].
Proof.
  apply (flattener_diamond_permutation
           (60, 12) (10, 10) (8, 88) (62, 90) 60 60); reflexivity.
Defined.

(** The four extreme corners do not depend on [w] and [h]. *)
Lemma flattener_rect_corners (pts : list point) :
  pts <> [] ->
  exists tl tr br bl,
    forall w h,
      flattener_rect pts w h =
      let temp_rect := replicate 4 (0, 0) in
      let temp_rect :=
        if Qle_bool (inject_Z w) (0.8 * inject_Z h)
        then assign4 tl tr br bl temp_rect else temp_rect in
      let temp_rect :=
        if Qle_bool (1.2 * inject_Z h) (inject_Z w)
        then assign4 bl tl tr br temp_rect else temp_rect in
      if Qltb (0.8 * inject_Z h) (inject_Z w)
         && Qltb (inject_Z w) (1.2 * inject_Z h)
      then flattener_diamond pts temp_rect
      else Ok temp_rect.
Proof.
  intros Hne.
  destruct (argmin_index psum pts Hne) as (i1 & tl & Ha1 & Hi1 & _).
  destruct (argmax_index psum pts Hne) as (i2 & br & Ha2 & Hi2 & _).
  destruct (argmin_index pdiff pts Hne) as (i3 & tr & Ha3 & Hi3 & _).
  destruct (argmax_index pdiff pts Hne) as (i4 & bl & Ha4 & Hi4 & _).
  exists tl, tr, br, bl. intros w h.
  unfold flattener_rect, np_sum_axis2, np_diff_last.
  change (fun p : point => px p + py p) with psum.
  change (fun p : point => py p - px p) with pdiff.
  rewrite Ha1, Ha2, Ha3, Ha4. simpl.
  rewrite Hi1, Hi2, Hi3, Hi4. reflexivity.
Qed.

(** Turning an upright box on its side turns the corner order by one place:
    if [w <= 0.8 h], swapping [w] and [h] moves the last corner to the
    front. *)
Theorem flattener_rect_swap (pts : list point) (w h : Z) :
  pts <> [] -> 0 < h ->
  (inject_Z w <= 0.8 * inject_Z h)%Q ->
  exists a b c d,
    flattener_rect pts w h = Ok [a; b; c; d]
    /\ flattener_rect pts h w = Ok [d; a; b; c].
Proof.
  intros Hne Hh Hv. apply vertical_test in Hv.
  destruct (flattener_rect_corners pts Hne) as (tl & tr & br & bl & Hrect).
  exists tl, tr, br, bl. rewrite !Hrect. cbv zeta.
  decide_tests. split; reflexivity.
Qed.

Lemma flattener_rect_swap_witness :
  exists a b c d,
    flattener_rect upright_quad 55 81 = Ok [a; b; c; d]
    /\ flattener_rect upright_quad 81 55 = Ok [d; a; b; c].
Proof.
  apply (flattener_rect_swap upright_quad 55 81);
    [discriminate | lia | unfold Qle; simpl; lia].
Defined.

(** With fewer than four points the diamond branch raises [IndexError],
    and the two other branches still return four corners; with no point at
    all every call raises. *)
Theorem flattener_rect_few_points (pts : list point) (w h : Z) :
  (length pts < 4)%nat ->
  (pts = [] -> flattener_rect pts w h = Raise ValueError)
  /\ (pts <> [] ->
      (0.8 * inject_Z h < inject_Z w)%Q ->
      (inject_Z w < 1.2 * inject_Z h)%Q ->
      flattener_rect pts w h = Raise IndexError)
  /\ (pts <> [] ->
      (inject_Z w <= 0.8 * inject_Z h)%Q
      \/ (1.2 * inject_Z h <= inject_Z w)%Q ->
      exists temp_rect,
        flattener_rect pts w h = Ok temp_rect /\ length temp_rect = 4%nat).
Proof.
  intros Hlen. split; [|split].
  - intros ->. reflexivity.
  - intros Hne Hlo Hhi.
    apply above_vertical_test in Hlo. apply below_horizontal_test in Hhi.
    destruct (flattener_rect_corners pts Hne) as (tl & tr & br & bl & ->).
    cbv zeta. decide_tests. simpl.
    destruct pts as [|p0 [|p1 [|p2 [|p3 ?]]]]; simpl in Hlen; try lia;
      try congruence; try reflexivity.
  - intros Hne Hor.
    destruct (flattener_rect_corners pts Hne) as (tl & tr & br & bl & ->).
    cbv zeta.
    rewrite vertical_test, horizontal_test in Hor.
    destruct (Z_le_gt_dec (5 * w) (4 * h)) as [Hv | Hv];
      destruct (Z_le_gt_dec (6 * h) (5 * w)) as [Hz | Hz];
      try lia; decide_tests; simpl; eexists; split; reflexivity.
Qed.

Lemma flattener_rect_few_points_witness :
  flattener_rect [(0, 0); (5, 5)] 60 60 = Raise IndexError.
Proof.
  apply (flattener_rect_few_points [(0, 0); (5, 5)] 60 60);
    [simpl; lia | discriminate | reflexivity | reflexivity].
Defined.

(** ** [process_card]: one card at a time *)

Lemma local_ret {A} (l : loc) (a : A) : local l (mret a).
Proof. intros c. exists c, (Ok a). reflexivity. Qed.

Lemma local_lift {A} (l : loc) (r : result A) : local l (lift r).
Proof. intros c. exists c, r. reflexivity. Qed.

Lemma local_getattr {A} (l : loc) (attr : card.t -> A) :
  local l (getattr l attr).
Proof. intros c. exists c, (Ok (attr c)). intros σ. apply getattr_insert. Qed.

Lemma local_setattr (l : loc) (set : card.t -> card.t) :
  local l (setattr l set).
Proof. intros c. exists (set c), (Ok tt). intros σ. apply setattr_insert. Qed.

Lemma local_bind {A B} (l : loc) (m : M A) (k : A -> M B) :
  local l m -> (forall a, local l (k a)) -> local l (m ≫= k).
Proof.
  intros Hm Hk c. destruct (Hm c) as (c1 & [a|e] & Hrun).
  - destruct (Hk a c1) as (c2 & r2 & Hrun2). exists c2, r2. intros σ.
    rewrite (bind_ok _ _ _ _ _ (Hrun σ)). apply Hrun2.
  - exists c1, (Raise e). intros σ. apply bind_raise, Hrun.
Qed.

Section ProcessCardLocal.
Context `{cv : OpenCV}.

Lemma process_card_local (l : loc) (image : color_image) :
  local l (process_card l image).
Proof.
  unfold process_card.
  apply local_bind; [apply local_getattr | intros cnt].
  apply local_bind; [apply local_lift | intros [[[x y] w] h]].
  apply local_bind; [apply local_setattr | intros _].
  apply local_bind; [apply local_setattr | intros _].
  apply local_bind; [apply local_getattr | intros pts].
  apply local_bind; [apply local_lift | intros [cent_x cent_y]].
  apply local_bind; [apply local_setattr | intros _].
  apply local_bind; [apply local_lift | intros warp].
  apply local_bind; [apply local_setattr | intros _].
  apply local_bind; [apply local_getattr | intros img].
  apply local_bind; [|intros _; apply local_ret].
  destruct (sort_rank_cnts _) as [|g rest]; [apply local_ret|].
  apply local_bind; [apply local_lift | intros glyph].
  apply local_setattr.
Qed.

(** Two different cards are processed independently: what happens to each,
    and what the call returns, is the same whether or not the other one was
    processed first, and both orders leave the same store. *)
Theorem process_card_independent (σ : store) (l1 l2 : loc)
        (image1 image2 : color_image) (c1 c2 : card.t) :
  l1 <> l2 -> σ !! l1 = Some c1 -> σ !! l2 = Some c2 ->
  exists c1' c2' r1 r2,
    process_card l1 image1 σ = (<[l1 := c1']> σ, r1)
    /\ process_card l2 image2 σ = (<[l2 := c2']> σ, r2)
    /\ process_card l2 image2 (<[l1 := c1']> σ)
       = (<[l2 := c2']> (<[l1 := c1']> σ), r2)
    /\ process_card l1 image1 (<[l2 := c2']> σ)
       = (<[l1 := c1']> (<[l2 := c2']> σ), r1)
    /\ <[l2 := c2']> (<[l1 := c1']> σ) = <[l1 := c1']> (<[l2 := c2']> σ).
Proof.
  intros Hne H1 H2.
  destruct (process_card_local l1 image1 c1) as (c1' & r1 & Hrun1).
  destruct (process_card_local l2 image2 c2) as (c2' & r2 & Hrun2).
  exists c1', c2', r1, r2. repeat split.
  - rewrite <- (Hrun1 σ), (insert_id σ l1 c1 H1). reflexivity.
  - rewrite <- (Hrun2 σ), (insert_id σ l2 c2 H2). reflexivity.
  - rewrite <- (Hrun2 (<[l1 := c1']> σ)). f_equal. symmetry.
    apply insert_id. rewrite lookup_insert_ne by exact Hne. exact H2.
  - rewrite <- (Hrun1 (<[l2 := c2']> σ)). f_equal. symmetry.
    apply insert_id. rewrite lookup_insert_ne by congruence. exact H1.
  - apply insert_insert_ne. congruence.
Qed.
End ProcessCardLocal.

Lemma process_card_independent_witness :
  let cv := cv_fixed [[(0, 0)]] (Some [top_level]) in
  exists c1' c2' r1 r2,
    process_card 0%nat one_pixel two_cards = (<[0%nat := c1']> two_cards, r1)
    /\ process_card 1%nat one_pixel two_cards
       = (<[1%nat := c2']> two_cards, r2)
    /\ process_card 1%nat one_pixel (<[0%nat := c1']> two_cards)
       = (<[1%nat := c2']> (<[0%nat := c1']> two_cards), r2)
    /\ process_card 0%nat one_pixel (<[1%nat := c2']> two_cards)
       = (<[0%nat := c1']> (<[1%nat := c2']> two_cards), r1)
    /\ <[1%nat := c2']> (<[0%nat := c1']> two_cards)
       = <[0%nat := c1']> (<[1%nat := c2']> two_cards).
Proof.
  intros cv.
  apply (process_card_independent (cv := cv) two_cards 0%nat 1%nat
           one_pixel one_pixel
           (new_card (rect 0 0 80 60) (rect 0 0 80 60))
           (new_card (rect 100 0 70 60) (rect 100 0 70 60)));
    [discriminate | reflexivity | reflexivity].
Defined.

(** ** [process_card]: what it stores *)

Lemma foldl_min_lower (l : list Z) : forall a v,
  v = a \/ v ∈ l -> foldl Z.min a l <= v.
Proof.
  induction l as [|u l IH]; intros a v [-> | Hv]; simpl.
  - lia.
  - apply elem_of_nil in Hv. contradiction.
  - pose proof (foldl_min_le l (Z.min a u)). lia.
  - apply elem_of_cons in Hv as [-> | Hv].
    + pose proof (foldl_min_le l (Z.min a u)). lia.
    + apply IH. right. exact Hv.
Qed.

Lemma foldl_max_upper (l : list Z) : forall a v,
  v = a \/ v ∈ l -> v <= foldl Z.max a l.
Proof.
  induction l as [|u l IH]; intros a v [-> | Hv]; simpl.
  - lia.
  - apply elem_of_nil in Hv. contradiction.
  - pose proof (foldl_max_ge l (Z.max a u)). lia.
  - apply elem_of_cons in Hv as [-> | Hv].
    + pose proof (foldl_max_ge l (Z.max a u)). lia.
    + apply IH. right. exact Hv.
Qed.

(** The box of [cv2.boundingRect] holds every point of the curve. *)
Lemma boundingRect_holds (c : contour) (x y w h : Z) (p : point) :
  boundingRect c = Ok (x, y, w, h) -> p ∈ c ->
  x <= px p < x + w /\ y <= py p < y + h.
Proof.
  destruct c as [|p0 c]; [discriminate|]. simpl. intros [= <- <- <- <-] Hp.
  assert (Hx : px p = px p0 \/ px p ∈ px <$> c).
  { apply elem_of_cons in Hp as [-> | Hp]; [left; reflexivity | right].
    apply list_elem_of_fmap_2. exact Hp. }
  assert (Hy : py p = py p0 \/ py p ∈ py <$> c).
  { apply elem_of_cons in Hp as [-> | Hp]; [left; reflexivity | right].
    apply list_elem_of_fmap_2. exact Hp. }
  pose proof (foldl_min_lower _ _ _ Hx). pose proof (foldl_max_upper _ _ _ Hx).
  pose proof (foldl_min_lower _ _ _ Hy). pose proof (foldl_max_upper _ _ _ Hy).
  lia.
Qed.

Lemma sum_bounds (lo hi : Z) (l : list Z) :
  Forall (fun v => lo <= v <= hi) l ->
  Z.of_nat (length l) * lo <= foldr Z.add 0 l <= Z.of_nat (length l) * hi.
Proof.
  induction 1 as [|v l Hv Hl IH]; simpl; [lia|].
  rewrite Nat2Z.inj_succ. lia.
Qed.

(** The truncated mean of integers lies between the least and the
    greatest of them. *)
Lemma mean_bounds (lo hi : Z) (l : list Z) :
  l <> [] -> Forall (fun v => lo <= v <= hi) l ->
  lo <= Z.quot (foldr Z.add 0 l) (Z.of_nat (length l)) <= hi.
Proof.
  intros Hne Hall. pose proof (sum_bounds lo hi l Hall) as [Hlo Hhi].
  assert (Hn : 0 < Z.of_nat (length l)) by (destruct l; [congruence | simpl; lia]).
  split.
  - apply Z.le_trans with (Z.quot (lo * Z.of_nat (length l))
                                   (Z.of_nat (length l))).
    + rewrite Z.quot_mul by lia. lia.
    + apply Z.quot_le_mono; lia.
  - apply Z.le_trans with (Z.quot (hi * Z.of_nat (length l))
                                   (Z.of_nat (length l))).
    + apply Z.quot_le_mono; lia.
    + rewrite Z.quot_mul by lia. lia.
Qed.

Lemma foldl_min_attained (l : list Z) : forall a,
  foldl Z.min a l = a \/ foldl Z.min a l ∈ l.
Proof.
  induction l as [|u l IH]; intros a; simpl; [left; reflexivity|].
  destruct (IH (Z.min a u)) as [H | H].
  - rewrite H. destruct (Z.min_spec a u) as [[_ ->] | [_ ->]];
      [left; reflexivity | right; left].
  - right. right. exact H.
Qed.

Lemma foldl_max_attained (l : list Z) : forall a,
  foldl Z.max a l = a \/ foldl Z.max a l ∈ l.
Proof.
  induction l as [|u l IH]; intros a; simpl; [left; reflexivity|].
  destruct (IH (Z.max a u)) as [H | H].
  - rewrite H. destruct (Z.max_spec a u) as [[_ ->] | [_ ->]];
      [right; left | left; reflexivity].
  - right. right. exact H.
Qed.

Lemma attained_at (f : point -> Z) (p0 : point) (c : contour) (v : Z) :
  v = f p0 \/ v ∈ f <$> c -> exists p, p ∈ p0 :: c /\ f p = v.
Proof.
  intros [-> | H].
  - exists p0. split; [left | reflexivity].
  - apply list_elem_of_fmap in H as (p & -> & Hp).
    exists p. split; [right; exact Hp | reflexivity].
Qed.

(** The box of [cv2.boundingRect] is tight: a point of the curve lies on
    each of its four sides. *)
Lemma boundingRect_tight (c : contour) (x y w h : Z) :
  boundingRect c = Ok (x, y, w, h) ->
  exists pl pr pt pb,
    pl ∈ c /\ pr ∈ c /\ pt ∈ c /\ pb ∈ c
    /\ px pl = x /\ px pr = x + w - 1
    /\ py pt = y /\ py pb = y + h - 1.
Proof.
  destruct c as [|p0 c]; [discriminate|]. simpl. intros [= <- <- <- <-].
  destruct (attained_at px p0 c _ (foldl_min_attained (px <$> c) (px p0)))
    as (pl & Hpl & Hl).
  destruct (attained_at px p0 c _ (foldl_max_attained (px <$> c) (px p0)))
    as (pr & Hpr & Hr).
  destruct (attained_at py p0 c _ (foldl_min_attained (py <$> c) (py p0)))
    as (pt & Hpt & Ht).
  destruct (attained_at py p0 c _ (foldl_max_attained (py <$> c) (py p0)))
    as (pb & Hpb & Hb).
  exists pl, pr, pt, pb. repeat (split; [assumption|]).
  split; [lia|]. split; [exact Ht | lia].
Qed.

Section ProcessCardStores.
Context `{cv : OpenCV}.

Lemma center_of_bounds (pts : list point) (cx cy : Z) :
  center_of pts = Ok (cx, cy) ->
  forall lo hi,
    (Forall (fun p => lo <= px p <= hi) pts -> lo <= cx <= hi)
    /\ (Forall (fun p => lo <= py p <= hi) pts -> lo <= cy <= hi).
Proof.
  destruct pts as [|p pts]; [discriminate|].
  unfold center_of. intros [= <- <-] lo hi.
  split; intros Hall.
  - pose proof (mean_bounds lo hi (px <$> p :: pts)) as Hm.
    rewrite length_fmap in Hm.
    apply Hm; [discriminate | apply Forall_fmap; exact Hall].
  - pose proof (mean_bounds lo hi (py <$> p :: pts)) as Hm.
    rewrite length_fmap in Hm.
    apply Hm; [discriminate | apply Forall_fmap; exact Hall].
Qed.

(** After a successful run the card carries the size of the bounding box
    of its curve: [width] and [height] are the [w] and [h] that
    [cv2.boundingRect] gives for the contour, the box holds every point of
    the curve and a point of the curve lies on each of its sides, so that
    [w] is the greatest difference in x between two points plus one, and
    [h] likewise in y.  [center] is the mean of the four corner points,
    each coordinate truncated, and lies within the extent of the corner
    points in each coordinate. *)
Theorem process_card_measures (σ : store) (l : loc) (image : color_image)
        (c : card.t) :
  σ !! l = Some c ->
  card.contour c <> [] ->
  length (card.corner_pts c) = 4%nat ->
  total image <> 0%nat ->
  contours_inside ->
  exists c' x y w h cx cy,
    process_card l image σ = (<[l := c']> σ, Ok l)
    /\ boundingRect (card.contour c) = Ok (x, y, w, h)
    /\ card.width c' = Some w /\ card.height c' = Some h
    /\ 1 <= w /\ 1 <= h
    /\ (forall p, p ∈ card.contour c ->
                  x <= px p < x + w /\ y <= py p < y + h)
    /\ (exists pl pr pt pb,
           pl ∈ card.contour c /\ pr ∈ card.contour c
           /\ pt ∈ card.contour c /\ pb ∈ card.contour c
           /\ px pr - px pl = w - 1 /\ py pb - py pt = h - 1)
    /\ (forall p q, p ∈ card.contour c -> q ∈ card.contour c ->
                    px p - px q < w /\ py p - py q < h)
    /\ center_of (card.corner_pts c) = Ok (cx, cy)
    /\ card.center c' = [cx; cy]
    /\ cx = Z.quot (foldr Z.add 0 (px <$> card.corner_pts c)) 4
    /\ cy = Z.quot (foldr Z.add 0 (py <$> card.corner_pts c)) 4
    /\ (forall lo hi,
          Forall (fun p => lo <= px p <= hi) (card.corner_pts c) ->
          lo <= cx <= hi)
    /\ (forall lo hi,
          Forall (fun p => lo <= py p <= hi) (card.corner_pts c) ->
          lo <= cy <= hi).
Proof.
  intros Hl Hcnt Hpts Himg Hinside.
  destruct (process_card_returns σ l image c Hcnt Hpts Himg Hinside)
    as (x & y & w & h & cx & cy & warp & Hbox & Hcen & _ & _ & Hrun).
  rewrite (insert_id σ l c Hl) in Hrun. cbv zeta in Hrun.
  assert (Hholds : forall p, p ∈ card.contour c ->
                     x <= px p < x + w /\ y <= py p < y + h)
    by (intros p Hp; exact (boundingRect_holds _ _ _ _ _ p Hbox Hp)).
  destruct (boundingRect_tight _ _ _ _ _ Hbox)
    as (pl & pr & pt & pb & Hpl & Hpr & Hpt & Hpb & Hl1 & Hr1 & Ht1 & Hb1).
  assert (Hw : 1 <= w) by (pose proof (Hholds pl Hpl); lia).
  assert (Hh : 1 <= h) by (pose proof (Hholds pl Hpl); lia).
  assert (Hspan : forall p q, p ∈ card.contour c -> q ∈ card.contour c ->
                    px p - px q < w /\ py p - py q < h).
  { intros p q Hp Hq. pose proof (Hholds p Hp). pose proof (Hholds q Hq). lia. }
  assert (Htight : exists pl pr pt pb,
             pl ∈ card.contour c /\ pr ∈ card.contour c
             /\ pt ∈ card.contour c /\ pb ∈ card.contour c
             /\ px pr - px pl = w - 1 /\ py pb - py pt = h - 1).
  { exists pl, pr, pt, pb. repeat (split; [assumption|]). lia. }
  pose proof (center_of_bounds _ _ _ Hcen) as Hc.
  assert (Hmean : cx = Z.quot (foldr Z.add 0 (px <$> card.corner_pts c)) 4
                  /\ cy = Z.quot (foldr Z.add 0 (py <$> card.corner_pts c)) 4).
  { destruct (four_points _ Hpts) as (p0 & p1 & p2 & p3 & E).
    rewrite E in Hcen |- *. unfold center_of in Hcen.
    injection Hcen as <- <-. split; reflexivity. }
  destruct Hmean as [Hcx Hcy].
  assert (Hrest :
            forall c',
              process_card l image σ = (<[l := c']> σ, Ok l) ->
              card.width c' = Some w -> card.height c' = Some h ->
              card.center c' = [cx; cy] ->
              exists c' x y w h cx cy,
                process_card l image σ = (<[l := c']> σ, Ok l)
                /\ boundingRect (card.contour c) = Ok (x, y, w, h)
                /\ card.width c' = Some w /\ card.height c' = Some h
                /\ 1 <= w /\ 1 <= h
                /\ (forall p, p ∈ card.contour c ->
                              x <= px p < x + w /\ y <= py p < y + h)
                /\ (exists pl pr pt pb,
                       pl ∈ card.contour c /\ pr ∈ card.contour c
                       /\ pt ∈ card.contour c /\ pb ∈ card.contour c
                       /\ px pr - px pl = w - 1 /\ py pb - py pt = h - 1)
                /\ (forall p q, p ∈ card.contour c -> q ∈ card.contour c ->
                                px p - px q < w /\ py p - py q < h)
                /\ center_of (card.corner_pts c) = Ok (cx, cy)
                /\ card.center c' = [cx; cy]
                /\ cx = Z.quot (foldr Z.add 0 (px <$> card.corner_pts c)) 4
                /\ cy = Z.quot (foldr Z.add 0 (py <$> card.corner_pts c)) 4
                /\ (forall lo hi,
                      Forall (fun p => lo <= px p <= hi) (card.corner_pts c) ->
                      lo <= cx <= hi)
                /\ (forall lo hi,
                      Forall (fun p => lo <= py p <= hi) (card.corner_pts c) ->
                      lo <= cy <= hi)).
  { intros c' Hr Hcw Hch Hcc. exists c', x, y, w, h, cx, cy.
    do 13 (split; [assumption|]). split; intros lo hi; apply Hc. }
  destruct (sort_rank_cnts _) as [|g rest].
  - eapply Hrest; [exact Hrun | reflexivity..].
  - destruct Hrun as (x1 & y1 & w1 & h1 & glyph & _ & _ & _ & Hrun).
    eapply Hrest; [exact Hrun | reflexivity..].
Qed.

(** A second run on the same card and image changes nothing. *)
Theorem process_card_idempotent (σ : store) (l : loc) (image : color_image)
        (c : card.t) :
  σ !! l = Some c ->
  card.contour c <> [] ->
  length (card.corner_pts c) = 4%nat ->
  total image <> 0%nat ->
  contours_inside ->
  exists σ',
    process_card l image σ = (σ', Ok l)
    /\ process_card l image σ' = (σ', Ok l).
Proof.
  intros Hl Hcnt Hpts Himg Hinside.
  destruct (process_card_returns σ l image c Hcnt Hpts Himg Hinside)
    as (x & y & w & h & cx & cy & warp & Hbox & Hcen & Hflat & _ & Hrun).
  cbv zeta in Hrun.
  destruct (sort_rank_cnts _) as [|g rest] eqn:Es.
  - eexists. split.
    + rewrite <- (insert_id σ l c Hl) at 1. exact Hrun.
    + set (c1 := card.set_img warp _) in *.
      destruct (process_card_returns σ l image c1)
        as (x' & y' & w' & h' & cx' & cy' & warp' & Hbox' & Hcen' & Hflat'
            & _ & Hrun'); try assumption.
      simpl in Hbox', Hcen', Hflat'.
      rewrite Hbox in Hbox'. injection Hbox' as <- <- <- <-.
      rewrite Hcen in Hcen'. injection Hcen' as <- <-.
      rewrite Hflat in Hflat'. injection Hflat' as <-.
      cbv zeta in Hrun'. rewrite Es in Hrun'. exact Hrun'.
  - destruct Hrun as (x1 & y1 & w1 & h1 & glyph & Hbox1 & Hres & _ & Hrun).
    eexists. split.
    + rewrite <- (insert_id σ l c Hl) at 1. exact Hrun.
    + set (c1 := card.set_rank_img glyph _) in *.
      destruct (process_card_returns σ l image c1)
        as (x' & y' & w' & h' & cx' & cy' & warp' & Hbox' & Hcen' & Hflat'
            & _ & Hrun'); try assumption.
      simpl in Hbox', Hcen', Hflat'.
      rewrite Hbox in Hbox'. injection Hbox' as <- <- <- <-.
      rewrite Hcen in Hcen'. injection Hcen' as <- <-.
      rewrite Hflat in Hflat'. injection Hflat' as <-.
      cbv zeta in Hrun'. rewrite Es in Hrun'.
      destruct Hrun' as (x2 & y2 & w2 & h2 & glyph' & Hbox2 & Hres' & _ & Hrun').
      rewrite Hbox1 in Hbox2. injection Hbox2 as <- <- <- <-.
      rewrite Hres in Hres'. injection Hres' as <-.
      exact Hrun'.
Qed.
End ProcessCardStores.

Lemma process_card_measures_witness :
  let cv := cv_fixed [[(0, 0)]] (Some [top_level]) in
  let c := new_card (rect 0 0 80 60) (rect 0 0 80 60) in
  let σ : store := {[ 0%nat := c ]} in
  exists c' x y w h cx cy,
    process_card 0%nat one_pixel σ = (<[0%nat := c']> σ, Ok 0%nat)
    /\ boundingRect (card.contour c) = Ok (x, y, w, h)
    /\ card.width c' = Some w /\ card.height c' = Some h
    /\ 1 <= w /\ 1 <= h
    /\ (forall p, p ∈ card.contour c ->
                  x <= px p < x + w /\ y <= py p < y + h)
    /\ (exists pl pr pt pb,
           pl ∈ card.contour c /\ pr ∈ card.contour c
           /\ pt ∈ card.contour c /\ pb ∈ card.contour c
           /\ px pr - px pl = w - 1 /\ py pb - py pt = h - 1)
    /\ (forall p q, p ∈ card.contour c -> q ∈ card.contour c ->
                    px p - px q < w /\ py p - py q < h)
    /\ center_of (card.corner_pts c) = Ok (cx, cy)
    /\ card.center c' = [cx; cy]
    /\ cx = Z.quot (foldr Z.add 0 (px <$> card.corner_pts c)) 4
    /\ cy = Z.quot (foldr Z.add 0 (py <$> card.corner_pts c)) 4
    /\ (forall lo hi,
          Forall (fun p => lo <= px p <= hi) (card.corner_pts c) ->
          lo <= cx <= hi)
    /\ (forall lo hi,
          Forall (fun p => lo <= py p <= hi) (card.corner_pts c) ->
          lo <= cy <= hi).
Proof.
  intros cv c σ.
  apply (process_card_measures (cv := cv) σ 0%nat one_pixel c);
    [reflexivity | discriminate | reflexivity | discriminate
    | exact cv_fixed_origin_inside].
Defined.

Lemma process_card_idempotent_witness :
  let cv := cv_fixed [[(0, 0)]] (Some [top_level]) in
  let σ : store := {[ 0%nat := new_card (rect 0 0 80 60) (rect 0 0 80 60) ]} in
  exists σ',
    process_card 0%nat one_pixel σ = (σ', Ok 0%nat)
    /\ process_card 0%nat one_pixel σ' = (σ', Ok 0%nat).
Proof.
  intros cv σ.
  apply (process_card_idempotent (cv := cv) σ 0%nat one_pixel
           (new_card (rect 0 0 80 60) (rect 0 0 80 60)));
    [reflexivity | discriminate | reflexivity | discriminate
    | exact cv_fixed_origin_inside].
Defined.

(** ** [process_card]: failures *)

Lemma getattr_lookup {A} (l : loc) (attr : card.t -> A) (σ : store)
      (c : card.t) :
  σ !! l = Some c -> getattr l attr σ = (σ, Ok (attr c)).
Proof. intros H. unfold getattr. rewrite H. reflexivity. Qed.

Section ProcessCardFailures.
Context `{cv : OpenCV}.

(** A card without a curve makes [process_card] raise at its first
    statement, before anything is written. *)
Theorem process_card_empty_contour (σ : store) (l : loc)
        (image : color_image) (c : card.t) :
  σ !! l = Some c -> card.contour c = [] ->
  process_card l image σ = (σ, Raise CvError).
Proof.
  intros Hl Hcnt. unfold process_card.
  erewrite bind_ok by (apply getattr_lookup; exact Hl).
  apply bind_raise. rewrite Hcnt. reflexivity.
Qed.

Lemma flattener_empty_image (image : color_image) (pts : list point)
      (w h : Z) :
  length pts = 4%nat -> total image = 0%nat ->
  flattener image pts w h = Raise CvError.
Proof.
  intros Hlen Himg. unfold flattener.
  destruct (flattener_rect_total pts w h Hlen) as (temp_rect & -> & _).
  simpl. unfold warpPerspective. rewrite Himg. reflexivity.
Qed.

(** [process_card] is not all-or-nothing.  With a curve but no corner
    points it raises after [width] and [height] have been written; with
    four corner points and an empty image it raises after [center] has been
    written as well.  In both cases [img] and [rank_img] are as before. *)
Theorem process_card_partial_update (σ : store) (l : loc)
        (image : color_image) (c : card.t) :
  σ !! l = Some c -> card.contour c <> [] ->
  exists x y w h,
    boundingRect (card.contour c) = Ok (x, y, w, h)
    /\ (card.corner_pts c = [] ->
        exists e,
          process_card l image σ
          = (<[l := card.set_height h (card.set_width w c)]> σ, Raise e))
    /\ (length (card.corner_pts c) = 4%nat -> total image = 0%nat ->
        exists cx cy,
          center_of (card.corner_pts c) = Ok (cx, cy)
          /\ process_card l image σ
             = (<[l := card.set_center [cx; cy]
                          (card.set_height h (card.set_width w c))]> σ,
                Raise CvError)).
Proof.
  intros Hl Hcnt.
  destruct (boundingRect_nonempty _ Hcnt) as (x & y & w & h & Hbox).
  exists x, y, w, h. split; [exact Hbox|].
  split.
  - intros Hpts. exists ValueError. unfold process_card.
    rewrite <- (insert_id σ l c Hl) at 1.
    erewrite bind_ok by apply getattr_insert.
    erewrite bind_ok by (unfold lift; rewrite Hbox; reflexivity).
    cbv beta iota.
    erewrite bind_ok by apply setattr_insert.
    erewrite bind_ok by apply setattr_insert.
    erewrite bind_ok by apply getattr_insert.
    apply bind_raise. simpl card.corner_pts. rewrite Hpts. reflexivity.
  - intros Hpts Himg.
    assert (Hne : card.corner_pts c <> []).
    { intros E. rewrite E in Hpts. discriminate. }
    destruct (center_of_nonempty _ Hne) as (cx & cy & Hcen).
    exists cx, cy. split; [exact Hcen|].
    unfold process_card.
    rewrite <- (insert_id σ l c Hl) at 1.
    erewrite bind_ok by apply getattr_insert.
    erewrite bind_ok by (unfold lift; rewrite Hbox; reflexivity).
    cbv beta iota.
    erewrite bind_ok by apply setattr_insert.
    erewrite bind_ok by apply setattr_insert.
    erewrite bind_ok by apply getattr_insert.
    erewrite bind_ok by (unfold lift; simpl; rewrite Hcen; reflexivity).
    cbv beta iota.
    erewrite bind_ok by apply setattr_insert.
    apply bind_raise. unfold lift. simpl card.corner_pts.
    rewrite (flattener_empty_image _ _ _ _ Hpts Himg). reflexivity.
Qed.
End ProcessCardFailures.

Lemma process_card_empty_contour_witness :
  let σ : store := {[ 0%nat := card.init ]} in
  process_card (cv := cv_fixed [] None) 0%nat one_pixel σ = (σ, Raise CvError).
Proof.
  intros σ.
  apply (process_card_empty_contour (cv := cv_fixed [] None)
           σ 0%nat one_pixel card.init);
    reflexivity.
Defined.

Lemma process_card_partial_update_witness :
  let cv := cv_fixed [] None in
  let c := card.set_contour (rect 0 0 80 60) card.init in
  let σ : store := {[ 0%nat := c ]} in
  exists x y w h,
    boundingRect (card.contour c) = Ok (x, y, w, h)
    /\ (card.corner_pts c = [] ->
        exists e,
          process_card 0%nat one_pixel σ
          = (<[0%nat := card.set_height h (card.set_width w c)]> σ, Raise e))
    /\ (length (card.corner_pts c) = 4%nat -> total one_pixel = 0%nat ->
        exists cx cy,
          center_of (card.corner_pts c) = Ok (cx, cy)
          /\ process_card 0%nat one_pixel σ
             = (<[0%nat := card.set_center [cx; cy]
                              (card.set_height h (card.set_width w c))]> σ,
                Raise CvError)).
Proof.
  intros cv c σ.
  apply (process_card_partial_update (cv := cv) σ 0%nat one_pixel c);
    [reflexivity | discriminate].
Defined.

(** ** From [get_card_contours] to [process_card] *)

Section Pipeline.
Context `{cv : OpenCV}.

(** On a rectangular, non-empty image every card that [get_card_contours]
    returns is one that [process_card] accepts: the call returns the card's
    reference and leaves a 200x300 image in it. *)
Theorem detected_cards_process (image : color_image) (rows cols : nat) :
  shape image rows cols -> (0 < rows)%nat -> (0 < cols)%nat ->
  contours_inside -> blur_keeps_shape ->
  exists cards,
    get_card_contours image = Ok cards
    /\ forall x, x ∈ cards ->
       forall (σ : store) (l : loc), σ !! l = Some x ->
       exists x',
         process_card l image σ = (<[l := x']> σ, Ok l)
         /\ shape (card.img x') 300 200.
Proof.
  intros Hshape Hrows Hcols Hinside Hblur.
  destruct (cvtColor_shape image rows cols Hshape Hrows Hcols)
    as (gray & Hgray & Hgshape).
  destruct (get_card_contours_fresh image gray Hgray) as (cards & Hret & Hfresh).
  destruct (get_card_contours_selection image gray Hgray)
    as (cards' & idx & Hret' & Hsub & Hcnt).
  rewrite Hret in Hret'. injection Hret' as <-.
  set (thresh := threshold_binary (GaussianBlur gray) CARD_THRESH) in *.
  assert (Hthresh : shape thresh rows cols)
    by (apply threshold_binary_shape, Hblur, Hgshape).
  exists cards. split; [exact Hret|]. intros x Hx σ l Hl.
  assert (Hcurve : card.contour x ∈ fst (findContours thresh)).
  { apply (list_elem_of_fmap_2 card.contour) in Hx. rewrite Hcnt in Hx.
    apply list_elem_of_fmap in Hx as (i & -> & Hi).
    eapply elem_of_sublist in Hi; [|exact Hsub].
    rewrite sorted_reverse_Permutation in Hi.
    apply list_elem_of_In, in_seq in Hi.
    apply list_elem_of_In, nth_In. lia. }
  destruct (Hinside thresh rows cols _ Hthresh Hrows Hcols Hcurve) as [Hne _].
  rewrite Forall_forall in Hfresh.
  destruct (Hfresh x Hx) as (_ & H4 & _).
  destruct (process_card_returns σ l image x Hne H4)
    as (bx & by_ & w & h & cx & cy & warp & _ & _ & _ & Hwarp & Hrun);
    [eapply shape_total; eauto | exact Hinside |].
  rewrite (insert_id σ l x Hl) in Hrun. cbv zeta in Hrun.
  destruct (sort_rank_cnts _) as [|g rest].
  - eexists. split; [exact Hrun | exact Hwarp].
  - destruct Hrun as (x1 & y1 & w1 & h1 & glyph & _ & _ & _ & Hrun).
    eexists. split; [exact Hrun | exact Hwarp].
Qed.
End Pipeline.

Lemma cv_scene_inside : contours_inside (cv := cv_scene).
Proof.
  intros img rows cols c [Hlen Hall] Hr Hc Hin. simpl in Hin.
  destruct ((80 <? length img)%nat
            && forallb (fun row : list Z => (90 <? length row)%nat) img)
    eqn:E; simpl in Hin; [|apply elem_of_nil in Hin; contradiction].
  apply list_elem_of_singleton in Hin as ->.
  apply andb_true_iff in E as [E1 E2]. apply Nat.ltb_lt in E1.
  destruct img as [|row img]; [simpl in E1; lia|].
  simpl in E2. apply andb_true_iff in E2 as [E2 _]. apply Nat.ltb_lt in E2.
  apply Forall_cons in Hall as [Hrow _].
  split; [discriminate|]. repeat constructor; simpl; lia.
Qed.

Lemma cv_scene_blur : blur_keeps_shape (cv := cv_scene).
Proof. intros img rows cols H. exact H. Qed.

Lemma scene_shape (x y w h : Z) : shape (scene x y w h) 100 150.
Proof.
  apply (shape_table
           (fun c r : nat =>
              if (x <=? Z.of_nat c) && (Z.of_nat c <=? x + w)
                 && (y <=? Z.of_nat r) && (Z.of_nat r <=? y + h)
              then (255, 255, 255) else (0, 0, 0))
           100 150).
Qed.

Lemma detected_cards_process_witness :
  (exists cards,
      get_card_contours (cv := cv_scene) (scene 10 10 70 60) = Ok cards
      /\ forall x, x ∈ cards ->
         forall (σ : store) (l : loc), σ !! l = Some x ->
         exists x',
           process_card (cv := cv_scene) l (scene 10 10 70 60) σ
           = (<[l := x']> σ, Ok l)
           /\ shape (card.img x') 300 200)
  /\ get_card_contours (cv := cv_scene) (scene 10 10 70 60)
     = Ok [new_card (rect 10 10 70 60) (rect 10 10 70 60)].
Proof.
  split.
  - apply (detected_cards_process (cv := cv_scene)
             (scene 10 10 70 60) 100 150);
      [apply scene_shape | lia | lia
      | exact cv_scene_inside | exact cv_scene_blur].
  - vm_compute. reflexivity.
Defined.

(** ** [load_ranks]: the directory name and the files *)

Lemma string_app_cons (ch : Ascii.ascii) (a b : string) :
  (String ch a ++ b)%string = String ch (a ++ b).
Proof. reflexivity. Qed.

Lemma string_length_app (a b : string) :
  String.length (a ++ b) = (String.length a + String.length b)%nat.
Proof.
  induction a as [|ch a IH]; [reflexivity|].
  rewrite string_app_cons. simpl. rewrite IH. reflexivity.
Qed.

Lemma string_app_assoc (a b c : string) :
  ((a ++ b) ++ c = a ++ (b ++ c))%string.
Proof.
  induction a as [|ch a IH]; [reflexivity|].
  rewrite !string_app_cons, IH. reflexivity.
Qed.

Lemma substring_all (b : string) :
  String.substring 0 (String.length b) b = b.
Proof. induction b as [|ch b IH]; simpl; [reflexivity | rewrite IH; reflexivity]. Qed.

Lemma substring_last (a b : string) :
  String.substring (String.length a) (String.length b) (a ++ b) = b.
Proof.
  induction a as [|ch a IH]; [apply substring_all|].
  rewrite string_app_cons. simpl. exact IH.
Qed.

Lemma ends_with_sep_slash (a : string) : ends_with_sep (a ++ "/") = true.
Proof.
  unfold ends_with_sep. rewrite string_length_app. simpl.
  rewrite Nat.add_1_r. apply String.eqb_eq.
  apply (substring_last a "/").
Qed.

(** A trailing separator on the directory name changes nothing: for a
    non-empty [path] that does not end in "/", the file names joined to
    [path ++ "/"] and to [path] are the same. *)
Lemma path_join_trailing_sep (path name : string) :
  path <> ""%string -> ends_with_sep path = false ->
  path_join (path ++ "/") name = path_join path name.
Proof.
  intros Hne Hsep. unfold path_join.
  rewrite ends_with_sep_slash, Hsep.
  replace (String.eqb path "") with false
    by (symmetry; apply String.eqb_neq; exact Hne).
  replace (String.eqb (path ++ "/") "") with false.
  - apply string_app_assoc.
  - symmetry. apply String.eqb_neq. destruct path; discriminate.
Qed.

Theorem load_ranks_trailing_sep (imread : string -> option gray_image)
        (path : string) :
  path <> ""%string -> ends_with_sep path = false ->
  load_ranks imread (path ++ "/") = load_ranks imread path.
Proof.
  intros Hne Hsep. unfold load_ranks. f_equal.
  generalize (@nil rank.t). generalize rank_names.
  induction l as [|name rest IH]; intros ranks; simpl; [reflexivity|].
  rewrite (path_join_trailing_sep path _ Hne Hsep). apply IH.
Qed.

Lemma load_ranks_trailing_sep_witness :
  load_ranks no_files "card_images/" = load_ranks no_files "card_images".
Proof.
  apply (load_ranks_trailing_sep no_files "card_images");
    [discriminate | reflexivity].
Defined.

(** The set returned is complete, every rank with an image, exactly when
    each of the thirteen files [<path>/<Name>.jpg] can be read. *)
Theorem load_ranks_complete_iff (imread : string -> option gray_image)
        (path : string) :
  exists ranks,
    load_ranks imread path = Ok ranks
    /\ rank.rank <$> ranks = rank_names
    /\ (Forall (fun r => rank.img r <> None) ranks
        <-> forall name, name ∈ rank_names ->
                         imread (path_join path (name ++ ".jpg")) <> None).
Proof.
  eexists. split; [reflexivity|]. split; [reflexivity|].
  change (load_ranks_loop imread path rank_names [])
    with ((fun name => rank.mk name (imread (path_join path (name ++ ".jpg"))))
            <$> rank_names).
  rewrite Forall_fmap, Forall_forall. reflexivity.
Qed.

(** ** [main.py] *)

(** The driver stops at line 23 on every file system: [cards.py] has no
    [findCards], so after the templates are loaded the attribute lookup
    raises and no card is ever processed. *)
Theorem main_stops_at_findCards
        (imread_gray : string -> option gray_image)
        (imread_color : string -> option color_image)
        (per_card_loop :
           list rank.t -> option color_image -> pyobj -> Main.outcome unit) :
  Main.main imread_gray imread_color per_card_loop
  = Main.Uncaught (Main.AttributeError "cards" "findCards").
Proof. reflexivity. Qed.
